(** * TestGen-Agent: source analysis, upload filtering and the generation engine

    The development follows the layout of the repository.

    - [JsString]: the JavaScript string primitives the front-end code calls
      ([endsWith], [toLowerCase], [trim]).  Strings are sequences of code
      units; the code units modelled are those below 256, so that [\s] and
      [trim] include U+00A0 besides the ASCII white space.
    - [JsRegExp]: the backtracking matcher of a regular expression made of
      literal characters and quantified character classes, the stateful
      [lastIndex] protocol of a global expression, and [String.prototype.match].
    - [CppParser]: [parseCppFiles] and [extractFunctions].
    - [Uploader]: the [addFiles] handler of the [FileUploader] component.
    - [Coverage], [BuildValidator], [Orchestrator]: the engine components
      whose code is not part of the front-end sources.
    - [JsRegExpTest], [GithubUrl]: expressions with [^], [$] and bounded
      quantifiers under [RegExp.prototype.test], and the URL check of the
      uploader.
    - [UploaderHandlers]: the other handlers of the uploader, [handleUpload]
      on both sides of its [await], and the controls the component renders.
    - [Views]: the expansion toggle of the results view and the file names
      of the project view.
    - [CppParserSpec]: the shape of what [extractFunctions] returns. *)

From Stdlib Require Import Bool Arith ZArith QArith Lia List Ascii String.
From Stdlib Require Import DecimalString DecimalNat.
Import ListNotations.

Local Open Scope string_scope.
Local Open Scope list_scope.
Local Open Scope nat_scope.

(** String concatenation, kept apart from the concatenation of lists. *)
Infix "+++" := String.append (right associativity, at level 60).

(* ------------------------------------------------------------------ *)
(** ** JavaScript strings *)

Module JsString.

Definition code (c : ascii) : nat := nat_of_ascii c.

Definition between (lo hi : nat) (c : ascii) : bool :=
  (lo <=? code c) && (code c <=? hi).

(** [\w] : [A-Za-z0-9_]. *)
Definition isWordChar (c : ascii) : bool :=
  between 97 122 c || between 65 90 c || between 48 57 c || (code c =? 95).

(** LineTerminator: LF and CR (U+2028 and U+2029 lie outside the range). *)
Definition isLineTerminator (c : ascii) : bool :=
  (code c =? 10) || (code c =? 13).

(** [\s] : WhiteSpace and LineTerminator: TAB, LF, VT, FF, CR, SP, NBSP. *)
Definition isWhiteSpace (c : ascii) : bool :=
  between 9 13 c || (code c =? 32) || (code c =? 160).

(** [.] without the [s] flag: anything but a line terminator. *)
Definition isDot (c : ascii) : bool := negb (isLineTerminator c).

Definition isChar (d c : ascii) : bool := Ascii.eqb d c.

Fixpoint drop (n : nat) (s : string) : string :=
  match n, s with
  | S n', String _ s' => drop n' s'
  | _, _ => s
  end.

(** [s.endsWith(suffix)]. *)
Definition endsWith (s suffix : string) : bool :=
  let n := String.length s in
  let m := String.length suffix in
  if n <? m then false
  else String.eqb (substring (n - m) m s) suffix.

(** Case mapping of one code unit: A-Z, and the Latin-1 capitals
    U+00C0..U+00DE except the multiplication sign U+00D7. *)
Definition lowerChar (c : ascii) : ascii :=
  if between 65 90 c
     || (between 192 222 c && negb (code c =? 215))
  then ascii_of_nat (code c + 32)
  else c.

Fixpoint toLowerCase (s : string) : string :=
  match s with
  | EmptyString => EmptyString
  | String c s' => String (lowerChar c) (toLowerCase s')
  end.

Fixpoint trimStart (s : string) : string :=
  match s with
  | String c s' => if isWhiteSpace c then trimStart s' else s
  | EmptyString => EmptyString
  end.

Fixpoint trimEnd (s : string) : string :=
  match s with
  | EmptyString => EmptyString
  | String c s' =>
      match trimEnd s' with
      | EmptyString => if isWhiteSpace c then EmptyString
                       else String c EmptyString
      | t => String c t
      end
  end.

(** [s.trim()]. *)
Definition trim (s : string) : string := trimEnd (trimStart s).

End JsString.

(* ------------------------------------------------------------------ *)
(** ** Regular expressions *)

Module JsRegExp.
Import JsString.

(** A pattern is a sequence of terms: a literal character, or a character
    class under a quantifier [{min,}], greedy or lazy.  This covers
    [x], [c+], [c*] and [c*?]. *)
Inductive term : Type :=
| Chr (c : ascii)
| Rep (cls : ascii -> bool) (min : nat) (greedy : bool).

Definition pattern := list term.

Definition plus (cls : ascii -> bool) : term := Rep cls 1 true.
Definition star (cls : ascii -> bool) : term := Rep cls 0 true.
Definition starLazy (cls : ascii -> bool) : term := Rep cls 0 false.

(** The repeat matcher: [k] is the continuation for what follows the
    quantified class, and the result is the number of characters the whole
    match consumes from [s].  A greedy quantifier tries one more iteration
    before the continuation, a lazy one the continuation first. *)
Fixpoint rep (cls : ascii -> bool) (greedy : bool)
         (k : string -> option nat) (min : nat) (s : string)
  : option nat :=
  match s with
  | EmptyString =>
      match min with
      | 0 => k EmptyString
      | S _ => None
      end
  | String c s' =>
      match min with
      | S m =>
          if cls c then option_map S (rep cls greedy k m s') else None
      | 0 =>
          if greedy then
            match (if cls c then option_map S (rep cls greedy k 0 s')
                   else None) with
            | Some e => Some e
            | None => k s
            end
          else
            match k s with
            | Some e => Some e
            | None =>
                if cls c then option_map S (rep cls greedy k 0 s')
                else None
            end
      end
  end.

(** The matcher of a pattern at the start of [s]: [Some n] when the
    pattern matches the first [n] characters, with the priorities of a
    backtracking matcher. *)
Fixpoint matcher (p : pattern) : string -> option nat :=
  match p with
  | [] => fun _ => Some 0
  | Chr c :: p' =>
      fun s =>
        match s with
        | String d s' =>
            if Ascii.eqb c d then option_map S (matcher p' s') else None
        | EmptyString => None
        end
  | Rep cls min greedy :: p' => rep cls greedy (matcher p') min
  end.

(** The first position of [s] at which the matcher succeeds, with the
    length matched there. *)
Fixpoint scan (p : pattern) (s : string) : option (nat * nat) :=
  match matcher p s with
  | Some n => Some (0, n)
  | None =>
      match s with
      | EmptyString => None
      | String _ s' =>
          match scan p s' with
          | Some (i, n) => Some (S i, n)
          | None => None
          end
      end
  end.

(** A RegExp object carrying the [g] flag. *)
Record RegExp : Type := mkRegExp { source : pattern; lastIndex : nat }.

Definition setLastIndex (R : RegExp) (i : nat) : RegExp :=
  mkRegExp (source R) i.

Record MatchResult : Type := mkMatch { index : nat; matched : string }.

(** RegExpBuiltinExec for a global expression: the search starts at
    [lastIndex]; a failure resets [lastIndex] to 0, a success moves it to
    the end of the match. *)
Definition RegExpBuiltinExec (R : RegExp) (str : string)
  : option MatchResult * RegExp :=
  if String.length str <? lastIndex R then (None, setLastIndex R 0)
  else
    match scan (source R) (drop (lastIndex R) str) with
    | None => (None, setLastIndex R 0)
    | Some (i, n) =>
        let start := lastIndex R + i in
        (Some (mkMatch start (substring start n str)),
         setLastIndex R (start + n))
    end.

(** The loop of RegExp.prototype[Symbol.match] for a global expression.
    [None] stands for a loop that is still running when the fuel is spent. *)
Fixpoint matchLoop (fuel : nat) (R : RegExp) (str : string)
  : option (list string * RegExp) :=
  match fuel with
  | 0 => None
  | S fuel' =>
      match RegExpBuiltinExec R str with
      | (None, R') => Some ([], R')
      | (Some m, R') =>
          let R'' :=
            match matched m with
            | EmptyString => setLastIndex R' (lastIndex R' + 1)
            | _ => R'
            end in
          match matchLoop fuel' R'' str with
          | Some (A, Rend) => Some (matched m :: A, Rend)
          | None => None
          end
      end
  end.

Definition matchFuel (str : string) : nat := String.length str + 2.

(** [str.match(R)] for a global [R]: [lastIndex] is first set to 0; the
    result is [null] (here [None]) when nothing matched, and the array of
    the matched substrings otherwise.  The last branch is never taken
    ([matchLoop_returns] below). *)
Definition String_match (str : string) (R : RegExp)
  : option (list string) * RegExp :=
  match matchLoop (matchFuel str) (setLastIndex R 0) str with
  | Some ([], R') => (None, R')
  | Some (A, R') => (Some A, R')
  | None => (None, R)
  end.

(** *** The language of a pattern

    What a pattern can match, priorities left aside: the declarative
    reading the matcher is compared with. *)

Fixpoint allChars (cls : ascii -> bool) (s : string) : bool :=
  match s with
  | EmptyString => true
  | String c s' => cls c && allChars cls s'
  end.

Inductive lang : pattern -> string -> Prop :=
| lang_nil : lang [] EmptyString
| lang_chr : forall c p s, lang p s -> lang (Chr c :: p) (String c s)
| lang_rep : forall cls min greedy p r s,
    allChars cls r = true ->
    min <= String.length r ->
    lang p s ->
    lang (Rep cls min greedy :: p) (r +++ s).

(** [m] occurs in [s] as a contiguous substring. *)
Definition occursIn (m s : string) : Prop :=
  exists pre post, s = pre +++ m +++ post.

(** A continuation [k] is sound for a language [K] when what it consumes
    is a prefix of its input that belongs to [K], and complete when it
    succeeds on every input that starts with a member of [K]. *)
Definition sound (k : string -> option nat) (K : string -> Prop) : Prop :=
  forall s n, k s = Some n ->
              n <= String.length s /\ K (substring 0 n s).

Definition complete (k : string -> option nat) (K : string -> Prop) : Prop :=
  forall m rest, K m -> exists n, k (m +++ rest) = Some n.

(** The language of a quantified class followed by [K]. *)
Definition repLang (cls : ascii -> bool) (K : string -> Prop)
           (min : nat) (x : string) : Prop :=
  exists r m, x = r +++ m /\ allChars cls r = true
              /\ min <= String.length r /\ K m.

End JsRegExp.

(* ------------------------------------------------------------------ *)
(** ** The C++ parser of the front end *)

Module CppParser.
Import JsString JsRegExp.

Record SourceFile : Type := mkFile { name : string; content : string }.

Record ParsedFile : Type :=
  mkParsed { fileName : string; functions : list string }.

(** [/(\w+\s+\**\w+\s*\(.*?\)\s*{)/g] *)
Definition functionRegex : pattern :=
  [ plus isWordChar; plus isWhiteSpace; star (isChar "*");
    plus isWordChar; star isWhiteSpace; Chr "(";
    starLazy isDot; Chr ")"; star isWhiteSpace; Chr "{" ].

(** [extractFunctions] run on a given RegExp object; the object is
    returned with the state the call leaves it in. *)
Definition extractFunctions_on (R : RegExp) (content : string)
  : list string * RegExp :=
  match String_match content R with
  | (Some matches, R') => (map trim matches, R')
  | (None, R') => ([], R')
  end.

(** The regular-expression literal is evaluated at each call. *)
Definition extractFunctions (content : string) : list string :=
  fst (extractFunctions_on (mkRegExp functionRegex 0) content).

(** The body of the [forEach] callback, on the array built so far. *)
Definition parseStep (parsedData : list ParsedFile) (file : SourceFile)
  : list ParsedFile :=
  if endsWith (name file) ".cpp" then
    parsedData ++ [mkParsed (name file) (extractFunctions (content file))]
  else parsedData.

Definition parseCppFiles (files : list SourceFile) : list ParsedFile :=
  fold_left parseStep files [].

(** Two source texts in which a definition appears only inside a block
    comment, and only inside a string literal. *)
Definition commentedSource : string :=
  "/* int removed(int x) { return x; } */".

Definition literalSource : string :=
  "const char* s = " +++ String (ascii_of_nat 34) "void fake() {"
  +++ String (ascii_of_nat 34) ";".

(** The entry [parseCppFiles] pushes for a file, and the test it makes. *)
Definition toParsed (f : SourceFile) : ParsedFile :=
  mkParsed (name f) (extractFunctions (content f)).

Definition isCpp (f : SourceFile) : bool := endsWith (name f) ".cpp".

End CppParser.

(* ------------------------------------------------------------------ *)
(** ** The file uploader component *)

Module Uploader.
Import JsString.

Record File : Type := mkFile { name : string; size : nat }.

Inductive UploadMode : Type := Files | Github | Zip.

(** The component state [addFiles] reads or writes, and the calls made to
    the [onError] callback, oldest first. *)
Record State : Type := mkState {
  selectedFiles : list File;
  uploadMode : UploadMode;
  githubUrl : string;
  errors : list string
}.

Definition cppFileExtensions : list string :=
  [".cpp"; ".hpp"; ".h"; ".cc"; ".cxx"; ".c++"].

Definition zipFileExtensions : list string := [".zip"; ".tar.gz"; ".tgz"].

(** [exts.some(ext => file.name.toLowerCase().endsWith(ext))] *)
Definition hasExtension (exts : list string) (file : File) : bool :=
  existsb (fun ext => endsWith (toLowerCase (name file)) ext) exts.

Definition setSelectedFiles (st : State) (update : list File -> list File)
  : State :=
  mkState (update (selectedFiles st)) (uploadMode st) (githubUrl st)
          (errors st).

Definition onError (st : State) (msg : string) : State :=
  mkState (selectedFiles st) (uploadMode st) (githubUrl st)
          (errors st ++ [msg]).

Definition isZip (m : UploadMode) : bool :=
  match m with Zip => true | _ => false end.

Definition addFiles (st : State) (files : list File) : State :=
  if isZip (uploadMode st) then
    match find (hasExtension zipFileExtensions) files with
    | Some zipFile => setSelectedFiles st (fun _ => [zipFile])
    | None =>
        onError st "Please select a valid archive file (.zip, .tar.gz, .tgz)"
    end
  else
    let validFiles := filter (hasExtension cppFileExtensions) files in
    if List.length validFiles =? 0 then
      onError st "Please select C++ files (.cpp, .hpp, .h, .cc, .cxx, .c++)"
    else setSelectedFiles st (fun prev => prev ++ validFiles).

Definition handleModeSwitch (st : State) (mode : UploadMode) : State :=
  mkState [] mode "" (errors st).

End Uploader.

(* ------------------------------------------------------------------ *)
(** ** Coverage Estimator *)

Module Coverage.

(** Modelled from the spec: the symbols produced by the Source Analyzer of
    the engine, which is not among the sources (data model, section 3). *)
Inductive SymbolKind : Type := Function | Method | Class.

(** Modelled from the spec: an extracted symbol; the engine that builds
    these is not among the sources. *)
Record ExtractedSymbol : Type := mkSymbol {
  kind : SymbolKind;
  qualifiedName : string;
  signature : string;
  owningClass : option string;
  startLine : nat;
  endLine : nat
}.

(** As declared in [types/project.ts]. *)
Record GeneratedTest : Type := mkTest {
  filename : string;
  content : string;
  source_file : string;
  functions_tested : list string;
  coverage_estimate : Q
}.

(** The analyzer output for one file: its path and its symbols. *)
Definition FileSymbols : Type := (string * list ExtractedSymbol)%type.

(** As declared in [types/project.ts], without the line counts, of which
    the estimator computes none from symbols and tests. *)
Record CoverageReport : Type := mkReport {
  overall_coverage : Q;
  file_coverage : list (string * Q);
  function_coverage : list (string * Q)
}.

(** Modelled from the spec: the Coverage Estimator is not among the
    sources.  A test claims a qualified name for a file when it targets
    that file and lists the name among its exercised symbols. *)
Definition claims (t : GeneratedTest) (F : string) (qname : string) : bool :=
  String.eqb (source_file t) F
  && existsb (String.eqb qname) (functions_tested t).

(** Modelled from the spec: coveredness in the estimator, which is not
    among the sources: a symbol counts as covered for a file if at least
    one generated test targeting that file lists its qualified name. *)
Definition covered (tests : list GeneratedTest) (F : string)
           (s : ExtractedSymbol) : bool :=
  existsb (fun t => claims t F (qualifiedName s)) tests.

(** Modelled from the spec: the coverage numerator of a file in the
    estimator, the number of its symbols that are covered. *)
Definition coveredCount (tests : list GeneratedTest) (fs : FileSymbols)
  : nat :=
  List.length (filter (covered tests (fst fs)) (snd fs)).

(** Modelled from the spec: the coverage denominator of a file, the number
    of its extracted symbols; the estimator is not among the sources. *)
Definition totalCount (fs : FileSymbols) : nat := List.length (snd fs).

(** Modelled from the spec: the quotient the estimator, which is not among
    the sources, reports: covered over total, and 0 when there is nothing
    to divide by. *)
Definition ratio (c t : nat) : Q :=
  match t with
  | 0 => 0%Q
  | S _ => (Z.of_nat c # Pos.of_nat t)%Q
  end.

(** Modelled from the spec: per-file coverage of the estimator, which is
    not among the sources. *)
Definition fileCoverage (tests : list GeneratedTest) (fs : FileSymbols) : Q :=
  ratio (coveredCount tests fs) (totalCount fs).

(** Modelled from the spec: the files that count for the overall coverage
    of the estimator, those with at least one symbol. *)
Definition hasSymbols (fs : FileSymbols) : bool :=
  negb (totalCount fs =? 0).

Definition sum (l : list nat) : nat := fold_right Nat.add 0 l.

(** Modelled from the spec: overall coverage of the estimator, which is
    not among the sources: covered symbols over total symbols across the
    files with at least one symbol (and 0 when no file has any). *)
Definition overallCoverage (tests : list GeneratedTest)
           (files : list FileSymbols) : Q :=
  let counted := filter hasSymbols files in
  ratio (sum (map (coveredCount tests) counted))
        (sum (map totalCount counted)).

(** Modelled from the spec: per-function coverage of the estimator, 1 for
    a covered symbol and 0 for another. *)
Definition functionCoverage (tests : list GeneratedTest) (fs : FileSymbols)
  : list (string * Q) :=
  map (fun s => (qualifiedName s,
                 if covered tests (fst fs) s then 1%Q else 0%Q)) (snd fs).

(** Modelled from the spec: [estimate(extractedSymbols, generatedTests)] of
    the Coverage Estimator, which is not among the sources. *)
Definition estimate (files : list FileSymbols) (tests : list GeneratedTest)
  : CoverageReport :=
  mkReport (overallCoverage tests files)
           (map (fun fs => (fst fs, fileCoverage tests fs)) files)
           (flat_map (functionCoverage tests) files).




(** The symbols and tests of the scenarios. *)
Definition fn (qname sig : string) : ExtractedSymbol :=
  mkSymbol Function qname sig None 1 1.

Definition testOf (F : string) (names : list string) : GeneratedTest :=
  mkTest ("test_" +++ F) "" F names 0.

End Coverage.

(* ------------------------------------------------------------------ *)
(** ** Build Validator *)

Module BuildValidator.

(** Modelled from the spec: the severities of the Build Validator, which
    is not among the sources. *)
Inductive Severity : Type := Info | Warning | Error.

(** Modelled from the spec: a log entry of the Build Validator. *)
Record BuildLogEntry : Type := mkEntry {
  severity : Severity;
  message : string;
  file : option string;
  line : option nat
}.

Definition isError (e : BuildLogEntry) : bool :=
  match severity e with Error => true | _ => false end.

(** The text before the first occurrence of [c], and the text after it. *)
Fixpoint splitAt (c : ascii) (s : string) : option (string * string) :=
  match s with
  | EmptyString => None
  | String d s' =>
      if Ascii.eqb d c then Some (EmptyString, s')
      else match splitAt c s' with
           | Some (a, b) => Some (String d a, b)
           | None => None
           end
  end.

(** Modelled from the spec: the severity words of a diagnostic line, the
    names of the three severities in lower case, as [error] in the
    scenario of section 8; the parser is not among the sources. *)
Definition severityName (sev : Severity) : string :=
  match sev with
  | Info => "info"
  | Warning => "warning"
  | Error => "error"
  end.

Definition severityOfName (w : string) : option Severity :=
  if String.eqb w "error" then Some Error
  else if String.eqb w "warning" then Some Warning
  else if String.eqb w "info" then Some Info
  else None.

(** Line numbers are written in decimal. *)
Definition showNat (n : nat) : string :=
  NilZero.string_of_uint (Nat.to_uint n).

Definition parseNat (digits : string) : option nat :=
  option_map Nat.of_uint (NilZero.uint_of_string digits).

Definition rawInfo (l : string) : BuildLogEntry := mkEntry Info l None None.

(** The shape [file:line: severity: message]. *)
Definition diagnosticLine (f : string) (n : nat) (sev : Severity)
           (msg : string) : string :=
  f +++ ":" +++ showNat n +++ ": " +++ severityName sev +++ ": " +++ msg.

(** Modelled from the spec: the diagnostic parser of the Build Validator
    is not among the sources.  A line of the shape
    [file:line: severity: message] maps to its fields; anything else is an
    [Info] entry carrying the raw line. *)
Definition parseLine (l : string) : BuildLogEntry :=
  match splitAt ":" l with
  | Some (String c f, r1) =>
      match splitAt ":" r1 with
      | Some (digits, String " " r2) =>
          match splitAt ":" r2 with
          | Some (w, String " " msg) =>
              match parseNat digits, severityOfName w with
              | Some n, Some sev =>
                  mkEntry sev msg (Some (String c f)) (Some n)
              | _, _ => rawInfo l
              end
          | _ => rawInfo l
          end
      | _ => rawInfo l
      end
  | _ => rawInfo l
  end.

(** Modelled from the spec: what invoking the toolchain gives the Build
    Validator, which is not among the sources: it ran, with an exit status
    and a diagnostic stream, or it could not be invoked. *)
Inductive Toolchain : Type :=
| Ran (exitSuccess : bool) (diagnostics : list string)
| InvocationFailed (reason : string).

(** Modelled from the spec: the log of the validator has no [Error]
    entry. *)
Definition noErrors (logs : list BuildLogEntry) : bool :=
  forallb (fun e => negb (isError e)) logs.

(** Modelled from the spec: [validate] of the Build Validator, which is
    not among the sources, on the outcome of the toolchain. *)
Definition validate (t : Toolchain) : bool * list BuildLogEntry :=
  match t with
  | Ran exitSuccess diagnostics =>
      let logs := map parseLine diagnostics in
      (noErrors logs && exitSuccess, logs)
  | InvocationFailed reason => (false, [mkEntry Error reason None None])
  end.

Fixpoint hasChar (c : ascii) (s : string) : bool :=
  match s with
  | EmptyString => false
  | String d s' => Ascii.eqb d c || hasChar c s'
  end.

End BuildValidator.

(* ------------------------------------------------------------------ *)
(** ** Orchestrator *)

Module Orchestrator.

(** Modelled from the spec: the states of the Orchestrator, which is not
    among the sources (section 4.6). *)
Inductive Status : Type :=
| Queued | Analyzing | Generating | Building | Refining | BuildFixing
| Succeeded | Failed.

(** Modelled from the spec: the prompt stages (section 4.2). *)
Inductive Stage : Type := InitialGeneration | Refinement | BuildFix.

(** Modelled from the spec: the failures of the Model Client, which is not
    among the sources (section 4.3). *)
Inductive Failure : Type :=
| Timeout | RateLimited | AuthFailure | ProviderUnavailable
| MalformedResponse.

Inductive ModelOutcome : Type :=
| Generated
| ModelError (f : Failure).

(** Modelled from the spec: what the Orchestrator is configured with, the
    coverage threshold of the request and the two retry ceilings. *)
Record Policy : Type := mkPolicy {
  coverage_threshold : Q;
  buildFixBudget : nat;
  refinementBudget : nat
}.

(** Modelled from the spec: the collaborators of a run of the
    Orchestrator: the analyzer, the model client at each of its
    invocations, and the validator with the coverage estimate at each
    Building attempt. *)
Record World : Type := mkWorld {
  analyzerOk : bool;
  modelReply : nat -> ModelOutcome;
  buildResult : nat -> bool * Q
}.

(** Modelled from the spec: a run of the Orchestrator, with its status,
    the stage of its last prompt, the attempts left in the two budgets,
    the invocations and Building attempts made, and the last build
    outcome with its coverage. *)
Record Run : Type := mkRun {
  status : Status;
  stage : Stage;
  buildFixLeft : nat;
  refineLeft : nat;
  modelCalls : nat;
  buildAttempts : nat;
  lastBuild : option (bool * Q)
}.

(** Modelled from the spec: a run starts [Queued] with full budgets. *)
Definition start (p : Policy) : Run :=
  mkRun Queued InitialGeneration (buildFixBudget p) (refinementBudget p)
        0 0 None.

Definition setStatus (r : Run) (s : Status) : Run :=
  mkRun s (stage r) (buildFixLeft r) (refineLeft r)
        (modelCalls r) (buildAttempts r) (lastBuild r).

Definition setStage (r : Run) (g : Stage) : Run :=
  mkRun (status r) g (buildFixLeft r) (refineLeft r)
        (modelCalls r) (buildAttempts r) (lastBuild r).

Definition useBuildFix (r : Run) : Run :=
  mkRun (status r) (stage r) (pred (buildFixLeft r)) (refineLeft r)
        (modelCalls r) (buildAttempts r) (lastBuild r).

Definition useRefinement (r : Run) : Run :=
  mkRun (status r) (stage r) (buildFixLeft r) (pred (refineLeft r))
        (modelCalls r) (buildAttempts r) (lastBuild r).

Definition countModelCall (r : Run) : Run :=
  mkRun (status r) (stage r) (buildFixLeft r) (refineLeft r)
        (S (modelCalls r)) (buildAttempts r) (lastBuild r).

Definition recordBuild (r : Run) (b : bool * Q) : Run :=
  mkRun (status r) (stage r) (buildFixLeft r) (refineLeft r)
        (modelCalls r) (S (buildAttempts r)) (Some b).

(** Modelled from the spec: the failures of the Model Client that may be
    retried, as section 4.3 lists them. *)
Definition retryable (f : Failure) : bool :=
  match f with
  | RateLimited | ProviderUnavailable => true
  | _ => false
  end.

(** Modelled from the spec: the retry policy of the Orchestrator, which is
    not among the sources: a retryable model failure takes one attempt
    from the budget of the stage that triggered it and the invocation is
    repeated; with no attempt left, and for the initial stage, which has
    no budget, the run fails. *)
Definition retry (r : Run) : Run :=
  match stage r with
  | InitialGeneration => setStatus r Failed
  | Refinement =>
      if 0 <? refineLeft r then useRefinement r else setStatus r Failed
  | BuildFix =>
      if 0 <? buildFixLeft r then useBuildFix r else setStatus r Failed
  end.

(** Modelled from the spec: the invocation of the model client by the
    Orchestrator, made in [Generating] and in [BuildFixing]. *)
Definition invokeModel (w : World) (r : Run) : Run :=
  let r' := countModelCall r in
  match modelReply w (modelCalls r) with
  | Generated => setStatus r' Building
  | ModelError f => if retryable f then retry r' else setStatus r' Failed
  end.

(** Modelled from the spec: the outcome of [Building] in the Orchestrator:
    [Succeeded] on a pass at or above the threshold; [Refining] on a pass
    under it while refinement attempts remain, one of which is consumed;
    [BuildFixing] on a failure while build-fix attempts remain, one of
    which is consumed; [Failed] otherwise. *)
Definition building (p : Policy) (w : World) (r : Run) : Run :=
  let b := buildResult w (buildAttempts r) in
  let r' := recordBuild r b in
  if fst b then
    if Qle_bool (coverage_threshold p) (snd b) then setStatus r' Succeeded
    else if 0 <? refineLeft r' then setStatus (useRefinement r') Refining
    else setStatus r' Failed
  else
    if 0 <? buildFixLeft r' then
      setStage (setStatus (useBuildFix r') BuildFixing) BuildFix
    else setStatus r' Failed.

(** Modelled from the spec: the Orchestrator is not among the sources.
    One transition of the state machine of section 4.6. *)
Definition step (p : Policy) (w : World) (r : Run) : Run :=
  match status r with
  | Queued => setStatus r Analyzing
  | Analyzing =>
      if analyzerOk w then setStage (setStatus r Generating) InitialGeneration
      else setStatus r Failed
  | Generating => invokeModel w r
  | Building => building p w r
  | Refining => setStage (setStatus r Generating) Refinement
  | BuildFixing => invokeModel w r
  | Succeeded | Failed => r
  end.

(** The state of a run after [n] transitions. *)
Fixpoint run (p : Policy) (w : World) (n : nat) : Run :=
  match n with
  | 0 => start p
  | S n' => step p w (run p w n')
  end.

Definition terminal (r : Run) : bool :=
  match status r with
  | Succeeded | Failed => true
  | _ => false
  end.

(** The states a run can be in, whatever the collaborators answer. *)
Inductive reachable (p : Policy) : Run -> Prop :=
| reach_start : reachable p (start p)
| reach_step : forall w r, reachable p r -> reachable p (step p w r).

Definition rank (s : Status) : nat :=
  match s with
  | Queued => 4
  | Analyzing => 3
  | Refining => 3
  | Generating => 2
  | BuildFixing => 2
  | Building => 1
  | Succeeded | Failed => 0
  end.

(** An upper bound on the transitions a run still has to make. *)
Definition measure (r : Run) : nat :=
  3 * (buildFixLeft r + refineLeft r) + rank (status r).

(** The state reached as [Succeeded] carries the build that passed. *)
Definition succeededSoundly (p : Policy) (r : Run) : Prop :=
  status r = Succeeded ->
  exists cov, lastBuild r = Some (true, cov)
              /\ (coverage_threshold p <= cov)%Q.

End Orchestrator.

(* ------------------------------------------------------------------ *)
(** ** Anchored regular expressions and [RegExp.prototype.test] *)

Module JsRegExpTest.
Import JsString.

(** Terms of a pattern that may carry the assertions [^] and [$] and
    bounded quantifiers: a literal character, a character class under
    [{min,max}] ([max] absent for no upper bound), greedy or lazy, and the
    two assertions. *)
Inductive aterm : Type :=
| AChr (c : ascii)
| AQuant (cls : ascii -> bool) (min : nat) (max : option nat) (greedy : bool)
| ABegin
| AEnd.

Definition apattern := list aterm.

Definition aplus (cls : ascii -> bool) : aterm := AQuant cls 1 None true.
Definition aopt (c : ascii) : aterm := AQuant (isChar c) 0 (Some 1) true.

(** The literal characters of [l], followed by [p]. *)
Fixpoint lits (l : string) (p : apattern) : apattern :=
  match l with
  | EmptyString => p
  | String c l' => AChr c :: lits l' p
  end.

(** One more iteration is allowed. *)
Definition canRepeat (max : option nat) : bool :=
  match max with
  | Some 0 => false
  | _ => true
  end.

(** The repeat matcher with an upper bound; [pos] is the index of [s] in
    the whole input and [k] the continuation. *)
Fixpoint arep (cls : ascii -> bool) (greedy : bool)
         (k : nat -> string -> option nat)
         (min : nat) (max : option nat) (pos : nat) (s : string)
  : option nat :=
  match s with
  | EmptyString =>
      match min with
      | 0 => k pos EmptyString
      | S _ => None
      end
  | String c s' =>
      match min with
      | S m =>
          if canRepeat max && cls c then
            option_map S (arep cls greedy k m (option_map pred max) (S pos) s')
          else None
      | 0 =>
          if greedy then
            match (if canRepeat max && cls c then
                     option_map S (arep cls greedy k 0 (option_map pred max)
                                        (S pos) s')
                   else None) with
            | Some e => Some e
            | None => k pos s
            end
          else
            match k pos s with
            | Some e => Some e
            | None =>
                if canRepeat max && cls c then
                  option_map S (arep cls greedy k 0 (option_map pred max)
                                     (S pos) s')
                else None
            end
      end
  end.

(** The matcher at index [pos] of the input, of which [s] is what remains:
    [Some n] when the pattern matches the next [n] characters. *)
Fixpoint amatcher (p : apattern) : nat -> string -> option nat :=
  match p with
  | [] => fun _ _ => Some 0
  | AChr c :: p' =>
      fun pos s =>
        match s with
        | String d s' =>
            if Ascii.eqb c d then option_map S (amatcher p' (S pos) s')
            else None
        | EmptyString => None
        end
  | AQuant cls min max greedy :: p' =>
      fun pos s => arep cls greedy (amatcher p') min max pos s
  | ABegin :: p' =>
      fun pos s => if pos =? 0 then amatcher p' pos s else None
  | AEnd :: p' =>
      fun pos s =>
        match s with
        | EmptyString => amatcher p' pos s
        | String _ _ => None
        end
  end.

(** The search of [exec] for an expression without the [g] and [y] flags:
    every index from [pos] on is tried in turn. *)
Fixpoint asearch (p : apattern) (pos : nat) (s : string) : bool :=
  match amatcher p pos s with
  | Some _ => true
  | None =>
      match s with
      | EmptyString => false
      | String _ s' => asearch p (S pos) s'
      end
  end.

(** [regex.test(str)] for an expression without flags: the search starts
    at index 0 and no state is kept. *)
Definition test (p : apattern) (str : string) : bool := asearch p 0 str.

(** *** What an anchored pattern can match

    [amatch p pos m rest]: at index [pos], with [m +++ rest] the remaining
    input, the pattern can match [m]. *)
Inductive amatch : apattern -> nat -> string -> string -> Prop :=
| am_nil : forall pos rest, amatch [] pos EmptyString rest
| am_chr : forall c p pos m rest,
    amatch p (S pos) m rest -> amatch (AChr c :: p) pos (String c m) rest
| am_quant : forall cls min max greedy p pos r m rest,
    JsRegExp.allChars cls r = true ->
    min <= String.length r ->
    (forall b, max = Some b -> String.length r <= b) ->
    amatch p (pos + String.length r) m rest ->
    amatch (AQuant cls min max greedy :: p) pos (r +++ m) rest
| am_begin : forall p m rest,
    amatch p 0 m rest -> amatch (ABegin :: p) 0 m rest
| am_end : forall p pos,
    amatch p pos EmptyString EmptyString ->
    amatch (AEnd :: p) pos EmptyString EmptyString.

Definition asound (k : nat -> string -> option nat)
           (K : nat -> string -> string -> Prop) : Prop :=
  forall pos s n, k pos s = Some n ->
                  n <= String.length s /\ K pos (substring 0 n s) (drop n s).

Definition acomplete (k : nat -> string -> option nat)
           (K : nat -> string -> string -> Prop) : Prop :=
  forall pos m rest, K pos m rest -> exists n, k pos (m +++ rest) = Some n.

(** What a quantified class followed by [K] can match. *)
Definition aquantLang (cls : ascii -> bool)
           (K : nat -> string -> string -> Prop)
           (min : nat) (max : option nat)
           (pos : nat) (x rest : string) : Prop :=
  exists r m, x = r +++ m /\ JsRegExp.allChars cls r = true
              /\ min <= String.length r
              /\ (forall b, max = Some b -> String.length r <= b)
              /\ K (pos + String.length r) m rest.

End JsRegExpTest.

(* ------------------------------------------------------------------ *)
(** ** The GitHub URL check of the uploader *)

Module GithubUrl.
Import JsString JsRegExpTest.

(** [[\w.-]] *)
Definition isNameChar (c : ascii) : bool :=
  isWordChar c || isChar "." c || isChar "-" c.

(** [/^https?:\/\/github\.com\/[\w.-]+\/[\w.-]+\/?$/] *)
Definition githubRegex : apattern :=
  ABegin
    :: lits "http"
         (aopt "s"
            :: lits "://github.com/"
                 (aplus isNameChar
                    :: AChr "/"
                    :: aplus isNameChar
                    :: aopt "/"
                    :: [AEnd])).

Definition validateGithubUrl (url : string) : bool := test githubRegex url.

(** A name of an owner or of a repository: not empty, over [[\w.-]]. *)
Definition isName (x : string) : Prop :=
  x <> EmptyString /\ JsRegExp.allChars isNameChar x = true.

(** The URLs [https://github.com/owner/repo], with [http] for [https] and
    a final slash allowed. *)
Definition repositoryUrl (url : string) : Prop :=
  exists scheme owner repo slash,
    url = scheme +++ "://github.com/" +++ owner +++ "/" +++ repo +++ slash
    /\ (scheme = "http" \/ scheme = "https")
    /\ (slash = "" \/ slash = "/")
    /\ isName owner /\ isName repo.

End GithubUrl.

(* ------------------------------------------------------------------ *)
(** ** The other handlers of the file uploader *)

Module UploaderHandlers.
Import JsString Uploader GithubUrl.

(** [array.filter((x, i) => keep x i)]: the callback is given the index of
    the element, which here starts at [i]. *)
Fixpoint filterFrom {A : Type} (keep : A -> nat -> bool) (i : nat)
         (l : list A) : list A :=
  match l with
  | [] => []
  | x :: l' =>
      if keep x i then x :: filterFrom keep (S i) l'
      else filterFrom keep (S i) l'
  end.

Definition filterIndexed {A : Type} (keep : A -> nat -> bool) (l : list A)
  : list A :=
  filterFrom keep 0 l.

(** [setSelectedFiles(prev => prev.filter((_, i) => i !== index))] *)
Definition removeFile (st : State) (index : nat) : State :=
  setSelectedFiles st
    (fun prev => filterIndexed (fun _ i => negb (i =? index)) prev).

(** [event.target.files] is a list of files or [null]. *)
Definition handleFileChange (st : State) (files : option (list File))
  : State :=
  match files with
  | Some fs => addFiles st fs
  | None => st
  end.

Definition handleZipFileChange (st : State) (files : option (list File))
  : State :=
  match files with
  | Some (file :: _) =>
      if hasExtension zipFileExtensions file then
        setSelectedFiles st (fun _ => [file])
      else
        onError st "Please select a valid archive file (.zip, .tar.gz, .tgz)"
  | _ => st
  end.

Definition setGithubUrl (st : State) (url : string) : State :=
  mkState (selectedFiles st) (uploadMode st) url (errors st).

Definition isGithub (m : UploadMode) : bool :=
  match m with Github => true | _ => false end.

(** As declared in [types/project.ts]. *)
Record ProjectInfo : Type := mkInfo {
  info_name : string;
  info_files : list string;
  classes : list string;
  functions : list string;
  dependencies : list string
}.

Record UploadResponse : Type := mkResponse {
  project_id : string;
  files : list string;
  info : ProjectInfo
}.

(** The calls [handleUpload] makes to the API service. *)
Inductive Request : Type :=
| uploadFromGithub (url : string)
| uploadProject (fileList : list File)
| uploadZipProject (fileList : list File).

(** What a rejected promise carries: an [Error] object with its message,
    or any other value. *)
Inductive Thrown : Type :=
| ErrorObject (message : string)
| OtherValue.

Inductive Outcome : Type :=
| Resolved (response : UploadResponse)
| Rejected (error : Thrown).

(** The component with its [uploading] and [dragOver] flags, the requests
    awaited, oldest first, and the calls made to [onUploadSuccess]. *)
Record UI : Type := mkUI {
  component : State;
  uploading : bool;
  dragOver : bool;
  inflight : list Request;
  uploaded : list UploadResponse
}.

Definition withComponent (ui : UI) (st : State) : UI :=
  mkUI st (uploading ui) (dragOver ui) (inflight ui) (uploaded ui).

Definition setUploading (ui : UI) (b : bool) : UI :=
  mkUI (component ui) b (dragOver ui) (inflight ui) (uploaded ui).

Definition setDragOver (ui : UI) (b : bool) : UI :=
  mkUI (component ui) (uploading ui) b (inflight ui) (uploaded ui).

Definition await (ui : UI) (req : Request) : UI :=
  mkUI (component ui) (uploading ui) (dragOver ui) (inflight ui ++ [req])
       (uploaded ui).

Definition onUploadSuccess (ui : UI) (response : UploadResponse) : UI :=
  mkUI (component ui) (uploading ui) (dragOver ui) (inflight ui)
       (uploaded ui ++ [response]).

Definition report (ui : UI) (msg : string) : UI :=
  withComponent ui (onError (component ui) msg).

(** [handleUpload], up to its [await]: the checks, [setUploading(true)]
    and the call to the API service. *)
Definition handleUpload (ui : UI) : UI :=
  let st := component ui in
  if isGithub (uploadMode st) then
    if String.eqb (trim (githubUrl st)) "" then
      report ui "Please enter a GitHub repository URL"
    else if negb (validateGithubUrl (githubUrl st)) then
      report ui "Please enter a valid GitHub repository URL (e.g., https://github.com/user/repo)"
    else await (setUploading ui true) (uploadFromGithub (githubUrl st))
  else
    if List.length (selectedFiles st) =? 0 then
      report ui ("Please select at least one "
                   +++ (if isZip (uploadMode st) then "archive"
                        else "C++ file"))
    else
      await (setUploading ui true)
            (if isZip (uploadMode st) then uploadZipProject (selectedFiles st)
             else uploadProject (selectedFiles st)).

(** [error instanceof Error ? error.message : fallback] *)
Definition errorMessage (error : Thrown) (fallback : string) : string :=
  match error with
  | ErrorObject message => message
  | OtherValue => fallback
  end.

Fixpoint removeAt {A : Type} (k : nat) (l : list A) : list A :=
  match k, l with
  | _, [] => []
  | 0, _ :: l' => l'
  | S k', x :: l' => x :: removeAt k' l'
  end.

(** [handleUpload] from its [await] on, when the [k]-th awaited request
    settles: the [try] on a response, the [catch] on a rejection, and the
    [finally]. *)
Definition handleUploadSettled (ui : UI) (k : nat) (o : Outcome) : UI :=
  match nth_error (inflight ui) k with
  | None => ui
  | Some req =>
      let ui1 :=
        mkUI (component ui) (uploading ui) (dragOver ui)
             (removeAt k (inflight ui)) (uploaded ui) in
      let ui2 :=
        match o, req with
        | Resolved response, uploadFromGithub _ =>
            let ui' := onUploadSuccess ui1 response in
            withComponent ui' (setGithubUrl (component ui') "")
        | Resolved response, _ =>
            let ui' := onUploadSuccess ui1 response in
            withComponent ui' (setSelectedFiles (component ui') (fun _ => []))
        | Rejected error, uploadFromGithub _ =>
            report ui1 (errorMessage error "Failed to fetch from GitHub")
        | Rejected error, _ =>
            report ui1 (errorMessage error "Upload failed")
        end in
      setUploading ui2 false
  end.

Definition handleDragOver (ui : UI) : UI := setDragOver ui true.
Definition handleDragLeave (ui : UI) : UI := setDragOver ui false.

Definition handleDrop (ui : UI) (files : list File) : UI :=
  let ui' := setDragOver ui false in
  withComponent ui' (addFiles (component ui') files).

(** What the user and the network can do to the component. *)
Inductive Event : Type :=
| ClickTab (mode : UploadMode)
| TypeUrl (value : string)
| DragOver
| DragLeave
| Drop (files : list File)
| ChooseFiles (files : option (list File))
| ChooseArchive (files : option (list File))
| ClickRemove (index : nat)
| ClickUpload
| Settle (k : nat) (o : Outcome).

(** The controls the component renders, and the buttons it disables. *)
Definition enabled (ui : UI) (e : Event) : bool :=
  let st := component ui in
  match e with
  | ClickTab _ => true
  | TypeUrl _ => isGithub (uploadMode st)
  | DragOver | DragLeave | Drop _ => negb (isGithub (uploadMode st))
  | ChooseFiles _ =>
      match uploadMode st with Files => true | _ => false end
  | ChooseArchive _ => isZip (uploadMode st)
  | ClickRemove index =>
      (0 <? List.length (selectedFiles st))
      && negb (isGithub (uploadMode st))
      && (index <? List.length (selectedFiles st))
  | ClickUpload =>
      if isGithub (uploadMode st) then
        negb (uploading ui || String.eqb (trim (githubUrl st)) "")
      else (0 <? List.length (selectedFiles st)) && negb (uploading ui)
  | Settle k _ => k <? List.length (inflight ui)
  end.

Definition fire (ui : UI) (e : Event) : UI :=
  match e with
  | ClickTab mode => withComponent ui (handleModeSwitch (component ui) mode)
  | TypeUrl value => withComponent ui (setGithubUrl (component ui) value)
  | DragOver => handleDragOver ui
  | DragLeave => handleDragLeave ui
  | Drop files => handleDrop ui files
  | ChooseFiles files =>
      withComponent ui (handleFileChange (component ui) files)
  | ChooseArchive files =>
      withComponent ui (handleZipFileChange (component ui) files)
  | ClickRemove index => withComponent ui (removeFile (component ui) index)
  | ClickUpload => handleUpload ui
  | Settle k o => handleUploadSettled ui k o
  end.

(** The component as [useState] initialises it. *)
Definition initial : UI := mkUI (mkState [] Github "" []) false false [] [].

Inductive reachable : UI -> Prop :=
| reach_initial : reachable initial
| reach_fire : forall ui e,
    reachable ui -> enabled ui e = true -> reachable (fire ui e).

(** What a request carries when the checks in front of it did their work. *)
Definition wellFormed (req : Request) : Prop :=
  match req with
  | uploadFromGithub url => repositoryUrl url
  | uploadProject fileList =>
      fileList <> []
      /\ Forall (fun f => hasExtension cppFileExtensions f = true) fileList
  | uploadZipProject fileList =>
      exists f, fileList = [f] /\ hasExtension zipFileExtensions f = true
  end.

(** What the selection holds in each mode. *)
Definition disciplined (st : State) : Prop :=
  match uploadMode st with
  | Github => selectedFiles st = []
  | Files =>
      Forall (fun f => hasExtension cppFileExtensions f = true)
             (selectedFiles st)
  | Zip =>
      List.length (selectedFiles st) <= 1
      /\ Forall (fun f => hasExtension zipFileExtensions f = true)
                (selectedFiles st)
  end.

Definition invariant (ui : UI) : Prop :=
  List.length (inflight ui) <= 1
  /\ uploading ui = negb (List.length (inflight ui) =? 0)
  /\ disciplined (component ui)
  /\ Forall wellFormed (inflight ui).

(** The earlier version of the component, without modes
    ([components/FileUploader.tsx]): the selection and the calls to
    [onError]. *)
Definition addFilesWithoutModes (st : list File * list string)
           (files : list File) : list File * list string :=
  let validFiles := filter (hasExtension cppFileExtensions) files in
  if List.length validFiles =? 0 then
    (fst st,
     snd st ++ ["Please select C++ files (.cpp, .hpp, .h, .cc, .cxx, .c++)"])
  else (fst st ++ validFiles, snd st).

End UploaderHandlers.

(* ------------------------------------------------------------------ *)
(** ** The results view and the project view *)

Module Views.
Import JsString.

(** A [Set] of strings: its elements in insertion order, none twice. *)
Definition StringSet : Type := list string.

Definition has (s : StringSet) (x : string) : bool :=
  existsb (String.eqb x) s.

Definition add (s : StringSet) (x : string) : StringSet :=
  if has s x then s else s ++ [x].

Definition delete (s : StringSet) (x : string) : StringSet :=
  filter (fun y => negb (String.eqb x y)) s.

(** [toggleTestExpansion] of [TestResults]: the update of the set of
    expanded tests. *)
Definition toggleTestExpansion (prev : StringSet) (filename : string)
  : StringSet :=
  let newSet := prev in
  if has newSet filename then delete newSet filename
  else add newSet filename.

(** [str.split(sep)] for a separator of one character: the pieces between
    the occurrences of the separator, never an empty array. *)
Fixpoint split (sep : ascii) (s : string) : list string :=
  match s with
  | EmptyString => [EmptyString]
  | String c s' =>
      if Ascii.eqb c sep then EmptyString :: split sep s'
      else match split sep s' with
           | piece :: pieces => String c piece :: pieces
           | [] => [String c EmptyString]
           end
  end.

(** [array.pop()]: the last element, [undefined] for an empty array. *)
Definition pop (l : list string) : option string :=
  match rev l with
  | x :: _ => Some x
  | [] => None
  end.

(** [file.split('/').pop()], the name [ProjectInput] shows for a file. *)
Definition shownName (file : string) : option string := pop (split "/" file).

End Views.

(* ------------------------------------------------------------------ *)
(** ** What the C++ parser extracts *)

Module CppParserSpec.
Import JsString JsRegExp CppParser.

Definition isWord (x : string) : Prop :=
  x <> EmptyString /\ allChars isWordChar x = true.

(** The texts [extractFunctions] takes for a function head: a word, white
    space, any stars, a word, optional white space, a parenthesised text
    without line terminator, optional white space, an opening brace. *)
Definition functionHead (m : string) : Prop :=
  exists ret ws1 stars fname ws2 args ws3,
    m = ret +++ ws1 +++ stars +++ fname +++ ws2
            +++ "(" +++ args +++ ")" +++ ws3 +++ "{"
    /\ isWord ret
    /\ ws1 <> EmptyString /\ allChars isWhiteSpace ws1 = true
    /\ allChars (isChar "*") stars = true
    /\ isWord fname
    /\ allChars isWhiteSpace ws2 = true
    /\ allChars isDot args = true
    /\ allChars isWhiteSpace ws3 = true.

(** [ms] lie in [s] one after the other, without overlap. *)
Inductive inOrder : list string -> string -> Prop :=
| inOrder_nil : forall s, inOrder [] s
| inOrder_cons : forall gap m ms rest,
    inOrder ms rest -> inOrder (m :: ms) (gap +++ m +++ rest).

Fixpoint countChar (c : ascii) (s : string) : nat :=
  match s with
  | EmptyString => 0
  | String d s' => (if Ascii.eqb d c then 1 else 0) + countChar c s'
  end.

End CppParserSpec.

(* ================================================================== *)
(** * Properties *)

(* ------------------------------------------------------------------ *)
(** ** Facts about strings *)

Module StringFacts.
Import JsString.

Lemma append_nil_r (s : string) : s +++ "" = s.
Proof. induction s as [|c s IH]; simpl; congruence. Qed.

Lemma append_assoc (a b c : string) : (a +++ b) +++ c = a +++ b +++ c.
Proof. induction a as [|x a IH]; simpl; congruence. Qed.

Lemma length_append (a b : string) :
  String.length (a +++ b) = String.length a + String.length b.
Proof. induction a as [|x a IH]; simpl; congruence. Qed.

Lemma drop_append (a b : string) : drop (String.length a) (a +++ b) = b.
Proof. induction a as [|x a IH]; simpl; auto. Qed.

Lemma drop_0 (s : string) : drop 0 s = s.
Proof. destruct s; reflexivity. Qed.

Lemma drop_nil (n : nat) : drop n "" = "".
Proof. destruct n; reflexivity. Qed.

Lemma length_drop (n : nat) (s : string) :
  String.length (drop n s) = String.length s - n.
Proof.
  revert s; induction n as [|n IH]; intros [|c s]; simpl; auto.
Qed.

Lemma drop_drop (i j : nat) (s : string) : drop i (drop j s) = drop (j + i) s.
Proof.
  revert s; induction j as [|j IH]; intros s.
  - now rewrite drop_0.
  - destruct s as [|c s]; [now rewrite !drop_nil | apply IH].
Qed.

Lemma substring_drop (i n : nat) (s : string) :
  substring i n s = substring 0 n (drop i s).
Proof.
  revert s; induction i as [|i IH]; intros s.
  - now rewrite drop_0.
  - destruct s as [|c s]; simpl; [now destruct n | apply IH].
Qed.

Lemma substring_append (a b : string) :
  substring 0 (String.length a) (a +++ b) = a.
Proof.
  induction a as [|x a IH]; simpl; [now destruct b | congruence].
Qed.

(** A string splits at any position into what [substring] and [drop]
    return. *)
Lemma take_drop (n : nat) (s : string) :
  n <= String.length s -> s = substring 0 n s +++ drop n s.
Proof.
  revert s; induction n as [|n IH]; intros [|c s] H; simpl in *;
    try reflexivity; try lia.
  f_equal. apply IH. lia.
Qed.

Lemma length_substring (i n : nat) (s : string) :
  i + n <= String.length s -> String.length (substring i n s) = n.
Proof.
  revert i s; induction n as [|n IH]; intros i s H.
  - rewrite substring_drop. now destruct (drop i s).
  - rewrite substring_drop.
    assert (L : String.length (drop i s) = String.length s - i)
      by apply length_drop.
    destruct (drop i s) as [|c t]; simpl in *; [lia|].
    f_equal. change (String.length (substring 0 n t) = n).
    apply (IH 0 t). lia.
Qed.

(** A substring cut out by [substring] occurs in the string. *)
Lemma substring_occurs (i n : nat) (s : string) :
  i + n <= String.length s ->
  s = substring 0 i s +++ substring i n s +++ drop (i + n) s.
Proof.
  intros H.
  rewrite (take_drop i s) at 1 by lia. f_equal.
  rewrite (substring_drop i n s).
  rewrite <- drop_drop.
  apply take_drop. rewrite length_drop. lia.
Qed.

Lemma endsWith_append (pre suffix : string) :
  endsWith (pre +++ suffix) suffix = true.
Proof.
  unfold endsWith. rewrite length_append.
  replace (String.length pre + String.length suffix <? String.length suffix)
    with false by (symmetry; apply Nat.ltb_ge; lia).
  replace (String.length pre + String.length suffix - String.length suffix)
    with (String.length pre) by lia.
  rewrite substring_drop, drop_append.
  rewrite <- (append_nil_r suffix) at 2.
  rewrite substring_append. apply String.eqb_refl.
Qed.

(** [endsWith] holds exactly of the strings that are something followed
    by the suffix. *)
Lemma endsWith_spec (s suffix : string) :
  endsWith s suffix = true <-> exists pre, s = pre +++ suffix.
Proof.
  split.
  - unfold endsWith.
    destruct (String.length s <? String.length suffix) eqn:L;
      [discriminate|].
    apply Nat.ltb_ge in L. intros E. apply String.eqb_eq in E.
    exists (substring 0 (String.length s - String.length suffix) s).
    pose proof (substring_occurs (String.length s - String.length suffix)
                  (String.length suffix) s) as O.
    rewrite E in O.
    replace (String.length s - String.length suffix + String.length suffix)
      with (String.length s) in O by lia.
    assert (D : drop (String.length s) s = "").
    { pose proof (length_drop (String.length s) s) as D.
      destruct (drop (String.length s) s); [reflexivity | simpl in D; lia]. }
    rewrite D, append_nil_r in O. apply O. lia.
  - intros [pre ->]. apply endsWith_append.
Qed.

Lemma append_inj_r (a b c d : string) :
  String.length b = String.length d -> a +++ b = c +++ d -> b = d.
Proof.
  intros L E.
  assert (La : String.length a = String.length c).
  { apply (f_equal String.length) in E. rewrite !length_append in E. lia. }
  revert c La E; induction a as [|x a IH]; intros [|y c] La E;
    simpl in *; try discriminate; auto.
  injection E as _ E. apply (IH c); auto.
Qed.

(** Two different suffixes of the same length cannot both end a string. *)
Lemma endsWith_exclusive (s suf1 suf2 : string) :
  String.length suf1 = String.length suf2 -> suf1 <> suf2 ->
  endsWith s suf1 = true -> endsWith s suf2 = false.
Proof.
  intros L N E1. destruct (endsWith s suf2) eqn:E2; [|reflexivity].
  apply endsWith_spec in E1 as [p1 ->].
  apply endsWith_spec in E2 as [p2 E2].
  exfalso. apply N. eapply append_inj_r; eauto.
Qed.

Lemma trimEnd_last (x : string) (c : ascii) :
  isWhiteSpace c = false ->
  trimEnd (x +++ String c "") = x +++ String c "".
Proof.
  intros W. induction x as [|d x IH]; simpl.
  - now rewrite W.
  - rewrite IH. destruct (x +++ String c "") eqn:E; [|reflexivity].
    destruct x; discriminate.
Qed.

(** [trim] leaves alone a string that neither starts nor ends with white
    space. *)
Lemma trim_id (c d : ascii) (x : string) :
  isWhiteSpace c = false -> isWhiteSpace d = false ->
  trim (String c (x +++ String d "")) = String c (x +++ String d "").
Proof.
  intros Wc Wd. unfold trim. simpl trimStart. rewrite Wc.
  apply (trimEnd_last (String c x) d Wd).
Qed.

End StringFacts.

(* ------------------------------------------------------------------ *)
(** ** The matcher against the language of its pattern *)

Module RegExpFacts.
Import JsString JsRegExp StringFacts.

Lemma option_map_S_Some (o : option nat) (n : nat) :
  option_map S o = Some n -> exists n', n = S n' /\ o = Some n'.
Proof. destruct o; simpl; intros E; inversion E; eauto. Qed.

Section Repeat.
Variables (cls : ascii -> bool) (greedy : bool).
Variables (k : string -> option nat) (K : string -> Prop).

Lemma repLang_nil (m : string) : K m -> repLang cls K 0 m.
Proof. intros H. exists "", m. simpl. auto with arith. Qed.

Lemma repLang_cons (c : ascii) (min : nat) (x : string) :
  cls c = true -> repLang cls K (pred min) x ->
  repLang cls K min (String c x).
Proof.
  intros C (r & m & -> & A & L & H).
  exists (String c r), m. simpl. rewrite C, A. repeat split; auto. lia.
Qed.

Lemma rep_sound :
  sound k K -> forall min, sound (rep cls greedy k min) (repLang cls K min).
Proof.
  intros Hk min s. revert min.
  induction s as [|c s IH]; intros min n E; simpl in E.
  - destruct min; [|discriminate].
    apply Hk in E as [L H]. split; [exact L|]. now apply repLang_nil.
  - assert (Step : forall j,
               (if cls c then option_map S (rep cls greedy k j s) else None)
               = Some n ->
               pred min = j ->
               n <= String.length (String c s)
               /\ repLang cls K min (substring 0 n (String c s))).
    { intros j E' <-. destruct (cls c) eqn:C; [|discriminate].
      apply option_map_S_Some in E' as (n' & -> & E').
      apply IH in E' as [L H]. simpl. split; [lia|].
      now apply repLang_cons. }
    destruct min as [|min].
    + destruct greedy.
      * destruct (if cls c then option_map S (rep cls true k 0 s) else None)
          as [e|] eqn:M.
        -- inversion E; subst e. now apply (Step 0).
        -- apply Hk in E as [L H]. split; [exact L|]. now apply repLang_nil.
      * destruct (k (String c s)) as [e|] eqn:M.
        -- inversion E; subst e.
           apply Hk in M as [L H]. split; [exact L|]. now apply repLang_nil.
        -- now apply (Step 0).
    + now apply (Step min).
Qed.

Lemma rep_complete :
  complete k K ->
  forall min, complete (rep cls greedy k min) (repLang cls K min).
Proof.
  intros Hk min x rest (r & m & -> & A & L & H).
  rewrite append_assoc.
  revert min A L; induction r as [|c r IH]; intros min A L; simpl in *.
  - assert (min = 0) by lia; subst min.
    destruct (Hk m rest H) as [n E].
    destruct (m +++ rest) as [|c s] eqn:Es; simpl; [eauto|].
    destruct greedy.
    + destruct (if cls c then option_map S (rep cls true k 0 s) else None);
        eauto.
    + rewrite E. eauto.
  - apply andb_true_iff in A as [C A]. rewrite C.
    destruct min as [|min].
    + destruct (IH 0 A) as [n E]; [lia|].
      destruct greedy.
      * rewrite E. simpl. eauto.
      * destruct (k (String c (r +++ m +++ rest))); [eauto|].
        rewrite E. simpl. eauto.
    + destruct (IH min A) as [n E]; [lia|]. rewrite E. simpl. eauto.
Qed.

End Repeat.

Lemma lang_rep_inv cls min greedy p x :
  lang (Rep cls min greedy :: p) x <-> repLang cls (lang p) min x.
Proof.
  split.
  - intros H. inversion H; subst. exists r, s. auto.
  - intros (r & m & -> & A & L & H). now constructor.
Qed.

Lemma sound_ext k (K K' : string -> Prop) :
  (forall x, K x -> K' x) -> sound k K -> sound k K'.
Proof. intros I H s n E. destruct (H s n E). auto. Qed.

Lemma complete_ext k (K K' : string -> Prop) :
  (forall x, K' x -> K x) -> complete k K -> complete k K'.
Proof. intros I H m rest M. apply H. auto. Qed.

(** Whatever the matcher consumes is in the language of the pattern. *)
Theorem matcher_sound (p : pattern) : sound (matcher p) (lang p).
Proof.
  induction p as [|[c|cls min greedy] p IH]; simpl.
  - intros s n E. inversion E; subst. split; [lia|].
    destruct s; constructor.
  - intros [|d s] n E; [discriminate|].
    destruct (Ascii.eqb c d) eqn:C; [|discriminate].
    apply Ascii.eqb_eq in C; subst d.
    apply option_map_S_Some in E as (n' & -> & E).
    apply IH in E as [L H]. simpl. split; [lia | now constructor].
  - apply (sound_ext _ (repLang cls (lang p) min)).
    + intros x. apply lang_rep_inv.
    + now apply rep_sound.
Qed.

(** The matcher succeeds wherever a member of the language starts:
    backtracking explores every way of matching. *)
Theorem matcher_complete (p : pattern) : complete (matcher p) (lang p).
Proof.
  induction p as [|[c|cls min greedy] p IH]; simpl.
  - intros m rest _. eauto.
  - intros m rest H. inversion H; subst. simpl.
    rewrite Ascii.eqb_refl.
    destruct (IH s rest) as [n E]; auto. rewrite E. simpl. eauto.
  - apply (complete_ext _ (repLang cls (lang p) min)).
    + intros x. apply lang_rep_inv.
    + now apply rep_complete.
Qed.

End RegExpFacts.

(* ------------------------------------------------------------------ *)
(** ** The [lastIndex] protocol and [String.prototype.match] *)

Module MatchFacts.
Import JsString JsRegExp StringFacts RegExpFacts.

Lemma scan_Some (p : pattern) (s : string) (i n : nat) :
  scan p s = Some (i, n) ->
  i + n <= String.length s /\ matcher p (drop i s) = Some n.
Proof.
  revert i; induction s as [|c s IH]; intros i; simpl.
  - destruct (matcher p "") as [n0|] eqn:M; [|discriminate].
    intros E; inversion E; subst. split; [|exact M].
    apply matcher_sound in M. simpl in *. lia.
  - destruct (matcher p (String c s)) as [n0|] eqn:M.
    + intros E; inversion E; subst. split; [|exact M].
      apply matcher_sound in M. simpl in *. lia.
    + destruct (scan p s) as [[i' n']|] eqn:Sc; [|discriminate].
      intros E; inversion E; subst.
      destruct (IH i' eq_refl) as [L H]. simpl. split; [lia | exact H].
Qed.

Lemma scan_None (p : pattern) (s : string) :
  scan p s = None -> forall j, matcher p (drop j s) = None.
Proof.
  induction s as [|c s IH]; simpl.
  - destruct (matcher p "") eqn:M; [discriminate|].
    intros _ j. now rewrite drop_nil.
  - destruct (matcher p (String c s)) eqn:M; [discriminate|].
    destruct (scan p s) as [[i n]|] eqn:Sc; [discriminate|].
    intros _ [|j]; simpl; auto.
Qed.

(** The scan finds the leftmost position where the matcher succeeds. *)
Lemma scan_leftmost (p : pattern) (s : string) (i n : nat) :
  scan p s = Some (i, n) -> forall j, j < i -> matcher p (drop j s) = None.
Proof.
  revert i; induction s as [|c s IH]; intros i; simpl.
  - destruct (matcher p ""); [|discriminate].
    intros E; inversion E; subst. lia.
  - destruct (matcher p (String c s)) eqn:M.
    + intros E; inversion E; subst. lia.
    + destruct (scan p s) as [[i' n']|] eqn:Sc; [|discriminate].
      intros E; inversion E; subst. intros [|j] Hj; simpl; auto.
      apply (IH i' eq_refl). lia.
Qed.

Lemma scan_complete (p : pattern) (pre m post : string) :
  lang p m -> scan p (pre +++ m +++ post) <> None.
Proof.
  intros H E.
  pose proof (scan_None _ _ E (String.length pre)) as N.
  rewrite drop_append in N.
  destruct (matcher_complete p m post H) as [n M]. congruence.
Qed.

Lemma setLastIndex_twice (R : RegExp) (i j : nat) :
  setLastIndex (setLastIndex R i) j = setLastIndex R j.
Proof. reflexivity. Qed.

(** A successful [exec]: the match starts at or after [lastIndex], lies
    within the string, belongs to the language of the pattern, and
    [lastIndex] moves to its end. *)
Lemma exec_Some (R R' : RegExp) (str : string) (m : MatchResult) :
  RegExpBuiltinExec R str = (Some m, R') ->
  exists n,
    lastIndex R <= index m
    /\ index m + n <= String.length str
    /\ matched m = substring (index m) n str
    /\ lang (source R) (matched m)
    /\ R' = setLastIndex R (index m + n).
Proof.
  unfold RegExpBuiltinExec.
  destruct (String.length str <? lastIndex R) eqn:L; [discriminate|].
  apply Nat.ltb_ge in L.
  destruct (scan (source R) (drop (lastIndex R) str)) as [[i n]|] eqn:Sc;
    [|discriminate].
  intros E; inversion E; subst; clear E. simpl.
  apply scan_Some in Sc as [B M].
  rewrite length_drop in B. rewrite drop_drop in M.
  exists n. repeat split; try lia.
  rewrite substring_drop. now apply matcher_sound in M.
Qed.

(** A failed [exec] resets [lastIndex], and nothing matches from the old
    [lastIndex] on. *)
Lemma exec_None (R R' : RegExp) (str : string) :
  RegExpBuiltinExec R str = (None, R') ->
  R' = setLastIndex R 0
  /\ forall j, matcher (source R) (drop (lastIndex R + j) str) = None
               \/ String.length str < lastIndex R.
Proof.
  unfold RegExpBuiltinExec.
  destruct (String.length str <? lastIndex R) eqn:L.
  - apply Nat.ltb_lt in L. intros E; inversion E; auto.
  - destruct (scan (source R) (drop (lastIndex R) str)) as [[i n]|] eqn:Sc;
      [discriminate|].
    intros E; inversion E; subst. split; [reflexivity|].
    intros j. left. rewrite <- drop_drop. now apply scan_None.
Qed.

Section Loop.
Variable str : string.

(** Every string the loop collects is a member of the language that
    occurs in [str]; the loop ends with [lastIndex] reset to 0. *)
Lemma matchLoop_sound (fuel : nat) :
  forall R A R',
    matchLoop fuel R str = Some (A, R') ->
    Forall (fun m => occursIn m str /\ lang (source R) m) A
    /\ R' = setLastIndex R 0.
Proof.
  induction fuel as [|fuel IH]; intros R A R'; simpl; [discriminate|].
  destruct (RegExpBuiltinExec R str) as [[m|] R1] eqn:X.
  - apply exec_Some in X as (n & L1 & L2 & Em & Hm & ->).
    set (R2 := match matched m with
               | "" => _
               | String _ _ => _
               end).
    assert (E2 : source R2 = source R /\ setLastIndex R2 0 = setLastIndex R 0)
      by (subst R2; destruct (matched m); auto).
    destruct (matchLoop fuel R2 str) as [[A2 Rend]|] eqn:ML; [|discriminate].
    intros E; inversion E; subst; clear E.
    apply IH in ML as [F ->]. destruct E2 as [E2 E3].
    rewrite E2 in F. split; [|exact E3].
    constructor; [|exact F]. split; [|exact Hm].
    exists (substring 0 (index m) str), (drop (index m + n) str).
    rewrite Em. now apply substring_occurs.
  - apply exec_None in X as [-> _].
    intros E; inversion E; subst. auto.
Qed.

(** The loop returns before its fuel is spent: each round moves
    [lastIndex] forward. *)
Lemma matchLoop_returns (fuel : nat) :
  forall R,
    lastIndex R <= String.length str + 1 ->
    String.length str + 2 <= fuel + lastIndex R ->
    exists A R', matchLoop fuel R str = Some (A, R').
Proof.
  induction fuel as [|fuel IH]; intros R B F; simpl; [lia|].
  destruct (RegExpBuiltinExec R str) as [[m|] R1] eqn:X; [|eauto].
  apply exec_Some in X as (n & L1 & L2 & Em & Hm & ->).
  assert (Ln : String.length (matched m) = n)
    by (rewrite Em; now apply length_substring).
  set (R2 := match matched m with
             | "" => _
             | String _ _ => _
             end).
  assert (P : lastIndex R < lastIndex R2
              /\ lastIndex R2 <= String.length str + 1).
  { subst R2. destruct (matched m); simpl in *; lia. }
  destruct (IH R2) as (A & Rend & E); [lia | lia |].
  rewrite E. eauto.
Qed.

(** More fuel does not change what the loop returns. *)
Lemma matchLoop_fuel (fuel : nat) :
  forall R res,
    matchLoop fuel R str = Some res ->
    forall fuel', fuel <= fuel' -> matchLoop fuel' R str = Some res.
Proof.
  induction fuel as [|fuel IH]; intros R res; simpl; [discriminate|].
  intros E [|fuel'] L; [lia|]. simpl.
  destruct (RegExpBuiltinExec R str) as [[m|] R1]; [|exact E].
  set (R2 := match matched m with
             | "" => _
             | String _ _ => _
             end) in *.
  destruct (matchLoop fuel R2 str) as [[A2 Rend]|] eqn:ML; [|discriminate].
  rewrite (IH _ _ ML fuel') by lia. exact E.
Qed.

(** [str.match(R)]: the loop run from [lastIndex] 0 returns an array,
    and the call answers [null] or that array. *)
Lemma String_match_spec (R : RegExp) :
  exists A,
    matchLoop (matchFuel str) (setLastIndex R 0) str
    = Some (A, setLastIndex R 0)
    /\ String_match str R
       = (match A with [] => None | _ => Some A end, setLastIndex R 0).
Proof.
  destruct (matchLoop_returns (matchFuel str) (setLastIndex R 0))
    as (A & R' & E); unfold matchFuel; simpl; try lia.
  pose proof (matchLoop_sound _ _ _ _ E) as [_ ER].
  rewrite setLastIndex_twice in ER. subst R'.
  exists A. split; [exact E|].
  unfold String_match. fold (matchFuel str). rewrite E.
  now destruct A.
Qed.

(** When the string contains a member of the language, the first round
    of the loop finds a match. *)
Lemma matchLoop_complete (R : RegExp) (m : string) (fuel : nat) (A : list string) (R' : RegExp) :
  occursIn m str -> lang (source R) m -> lastIndex R = 0 ->
  matchLoop fuel R str = Some (A, R') -> A <> [].
Proof.
  intros (pre & post & ->) H L0.
  destruct fuel as [|fuel]; simpl; [discriminate|].
  destruct (RegExpBuiltinExec R (pre +++ m +++ post)) as [[m1|] R1] eqn:X.
  - destruct (matchLoop fuel _ _) as [[A2 Rend]|]; [|discriminate].
    intros E; inversion E; subst. discriminate.
  - exfalso. unfold RegExpBuiltinExec in X. rewrite L0 in X. simpl in X.
    rewrite ?drop_0 in X.
    destruct (scan (source R) (pre +++ m +++ post)) as [[i n]|] eqn:Sc;
      [discriminate|].
    now apply (scan_complete _ pre m post H).
Qed.

End Loop.

End MatchFacts.

(* ------------------------------------------------------------------ *)
(** ** The C++ parser *)

Module CppParserFacts.
Import JsString JsRegExp CppParser StringFacts RegExpFacts MatchFacts.

Lemma word_not_space (c : ascii) :
  isWordChar c = true -> isWhiteSpace c = false.
Proof.
  destruct c as [[] [] [] [] [] [] [] []]; vm_compute; congruence.
Qed.

(** A pattern that ends with a literal character matches only strings
    that end with it. *)
Lemma lang_last (c : ascii) (p : pattern) :
  forall m, lang (p ++ [Chr c]) m -> exists x, m = x +++ String c "".
Proof.
  induction p as [|t p IH]; intros m H; simpl in H.
  - inversion H as [|? ? s Hs|]; subst. inversion Hs; subst. now exists "".
  - inversion H as [|? ? s Hs|? ? ? ? r s A L Hs]; subst.
    + destruct (IH s Hs) as [x ->]. now exists (String c0 x).
    + destruct (IH s Hs) as [x ->]. exists (r +++ x).
      now rewrite append_assoc.
Qed.

(** A match of [functionRegex] starts with a word character and ends with
    the opening brace. *)
Lemma functionRegex_shape (m : string) :
  lang functionRegex m ->
  exists c x, m = String c (x +++ "{") /\ isWordChar c = true.
Proof.
  intros H.
  destruct (lang_last "{" (removelast functionRegex) m H) as [x E].
  inversion H as [| |? ? ? ? r s A L Hs Ep Em].
  destruct r as [|c r]; simpl in L; [lia|].
  simpl in A. apply andb_true_iff in A as [C _].
  rewrite E in Em.
  destruct x as [|d x]; simpl in Em; inversion Em; subst.
  - discriminate.
  - eauto.
Qed.

Lemma trim_match (m : string) : lang functionRegex m -> trim m = m.
Proof.
  intros H. destruct (functionRegex_shape m H) as (c & x & -> & W).
  apply trim_id; [now apply word_not_space | reflexivity].
Qed.

Lemma map_trim_matches (A : list string) :
  Forall (fun m => lang functionRegex m) A -> map trim A = A.
Proof.
  induction 1 as [|m A H _ IH]; simpl; [reflexivity|].
  now rewrite trim_match, IH.
Qed.

(** What [extractFunctions] computes on any RegExp object: the array of
    the match loop run from [lastIndex] 0, each entry trimmed. *)
Lemma extractFunctions_on_spec (R : RegExp) (content : string) :
  exists A,
    matchLoop (matchFuel content) (setLastIndex R 0) content
    = Some (A, setLastIndex R 0)
    /\ extractFunctions_on R content = (map trim A, setLastIndex R 0).
Proof.
  destruct (String_match_spec content R) as (A & E & M).
  exists A. split; [exact E|].
  unfold extractFunctions_on. rewrite M. now destruct A.
Qed.

Lemma extractFunctions_spec (content : string) :
  exists A,
    matchLoop (matchFuel content) (mkRegExp functionRegex 0) content
    = Some (A, mkRegExp functionRegex 0)
    /\ Forall (fun m => occursIn m content /\ lang functionRegex m) A
    /\ extractFunctions content = A.
Proof.
  destruct (extractFunctions_on_spec (mkRegExp functionRegex 0) content)
    as (A & E & X).
  change (setLastIndex (mkRegExp functionRegex 0) 0)
    with (mkRegExp functionRegex 0) in *.
  exists A. split; [exact E|].
  pose proof (matchLoop_sound _ _ _ _ _ E) as [F _]. simpl in F.
  split; [exact F|].
  unfold extractFunctions. rewrite X. simpl.
  apply map_trim_matches. eapply Forall_impl; [|exact F]. now intros m [_ H].
Qed.

Lemma fold_parseStep (files : list SourceFile) :
  forall parsedData,
    fold_left parseStep files parsedData
    = parsedData ++ map toParsed (filter isCpp files).
Proof.
  induction files as [|f files IH]; intros acc; simpl.
  - now rewrite app_nil_r.
  - rewrite IH. unfold parseStep, isCpp.
    destruct (endsWith (name f) ".cpp"); simpl; [|reflexivity].
    now rewrite <- app_assoc.
Qed.

Lemma parseCppFiles_filter (files : list SourceFile) :
  parseCppFiles files = map toParsed (filter isCpp files).
Proof. unfold parseCppFiles. now rewrite fold_parseStep. Qed.

Lemma endsWith_last_char (s x : string) (c : ascii) :
  endsWith s (x +++ String c "") = true -> endsWith s (String c "") = true.
Proof.
  intros H. apply endsWith_spec in H as [pre ->].
  rewrite <- append_assoc. apply endsWith_append.
Qed.

(** Suffixes whose last characters differ exclude each other. *)
Lemma endsWith_other_last (pre x y : string) (c d : ascii) :
  c <> d -> endsWith (pre +++ x +++ String c "") (y +++ String d "") = false.
Proof.
  intros N.
  destruct (endsWith _ (y +++ String d "")) eqn:E; [exfalso | reflexivity].
  apply endsWith_last_char in E.
  rewrite <- append_assoc in E.
  pose proof (endsWith_append (pre +++ x) (String c "")) as E'.
  apply N.
  assert (X : String c "" = String d "").
  { destruct (string_dec (String c "") (String d "")) as [e|ne]; [exact e|].
    now rewrite (endsWith_exclusive _ (String c "") (String d "")
                   eq_refl ne E') in E. }
  now inversion X.
Qed.

Lemma not_cpp (pre ext : string) :
  In ext [".hpp"; ".h"; ".cc"; ".cxx"] -> endsWith (pre +++ ext) ".cpp" = false.
Proof.
  simpl. intros [<-|[<-|[<-|[<-|[]]]]].
  - apply (endsWith_exclusive _ ".hpp"); [reflexivity | discriminate |].
    apply endsWith_append.
  - apply (endsWith_other_last pre "." ".cp" "h" "p"). discriminate.
  - apply (endsWith_other_last pre ".c" ".cp" "c" "p"). discriminate.
  - apply (endsWith_other_last pre ".cx" ".cp" "x" "p"). discriminate.
Qed.

End CppParserFacts.

(** *** Claims about the Source Analyzer *)

Module AnalyzerClaims.
Import JsString JsRegExp CppParser StringFacts RegExpFacts MatchFacts.
Import CppParserFacts.

Example extract_two_definitions :
  extractFunctions "int add(int a, int b) { return a + b; }
static char *name (void)
{ return 0; }
int declared(int);"
  = ["int add(int a, int b) {"; "char *name (void)
{"].
Proof. vm_compute. reflexivity. Qed.

(** C1, as stated, fails: a definition that appears only inside a block
    comment, or only inside a string literal, is extracted. *)
Lemma declaration_in_comment_or_literal_extracted :
  extractFunctions commentedSource = ["int removed(int x) {"]
  /\ extractFunctions literalSource = ["void fake() {"].
Proof. split; vm_compute; reflexivity. Qed.

(** C1, amended: [extractFunctions] matches the regular expression over the
    raw text.  Every string it returns occurs in the text and belongs to
    the language of [functionRegex]; and it returns something exactly when
    the text, comments and literals included, contains a member of that
    language. *)
Theorem extractFunctions_matches_raw_text (content : string) :
  Forall (fun f => occursIn f content /\ lang functionRegex f)
         (extractFunctions content)
  /\ ((exists f, occursIn f content /\ lang functionRegex f)
      <-> extractFunctions content <> []).
Proof.
  destruct (extractFunctions_spec content) as (A & E & F & ->).
  split; [exact F|]. split.
  - intros (f & O & H).
    now apply (matchLoop_complete content (mkRegExp functionRegex 0) f _ _ _ O H
                 eq_refl E).
  - intros N. destruct A as [|f A]; [congruence|].
    exists f. now inversion F.
Qed.

(** C7: the analysis is deterministic and idempotent.  The only state a
    call reads is [lastIndex] of the RegExp object: the result does not
    depend on it, and the call leaves the object as a fresh literal has it,
    so that running again on the object a run leaves behind returns the same
    list and the same object; and what [parseCppFiles] returns for a file
    is the same wherever the file stands, whatever was analysed before. *)
Theorem extractFunctions_deterministic (content : string) (i : nat) :
  extractFunctions_on (mkRegExp functionRegex i) content
  = (extractFunctions content, mkRegExp functionRegex 0)
  /\ extractFunctions_on
       (snd (extractFunctions_on (mkRegExp functionRegex i) content)) content
     = extractFunctions_on (mkRegExp functionRegex i) content
  /\ (forall before after,
         parseCppFiles (before ++ mkFile "again.cpp" content :: after)
         = parseCppFiles before
           ++ mkParsed "again.cpp" (extractFunctions content)
           :: parseCppFiles after).
Proof.
  assert (X : forall j, extractFunctions_on (mkRegExp functionRegex j) content
                        = (extractFunctions content, mkRegExp functionRegex 0)).
  { intros j.
    destruct (extractFunctions_on_spec (mkRegExp functionRegex j) content)
      as (A & E & ->).
    destruct (extractFunctions_on_spec (mkRegExp functionRegex 0) content)
      as (A0 & E0 & X0).
    unfold extractFunctions. rewrite X0.
    unfold setLastIndex in *. cbn [source fst] in *.
    rewrite E in E0. injection E0 as ->. reflexivity. }
  split; [apply X|]. split; [rewrite (X i); cbn [snd]; apply X|].
  intros before after.
  now rewrite !parseCppFiles_filter, filter_app, map_app.
Qed.

(** C8: [parseCppFiles] returns one entry per file whose name ends with
    [.cpp], in input order, and a file named with another extension
    contributes nothing. *)
Theorem parseCppFiles_cpp_only (files : list SourceFile) :
  parseCppFiles files = map toParsed (filter isCpp files)
  /\ map fileName (parseCppFiles files)
     = filter (fun n => endsWith n ".cpp") (map name files)
  /\ (forall pre post base text,
        Forall (fun ext =>
                  parseCppFiles (pre ++ mkFile (base +++ ext) text :: post)
                  = parseCppFiles (pre ++ post))
               [".hpp"; ".h"; ".cc"; ".cxx"]).
Proof.
  split; [apply parseCppFiles_filter|]. split.
  - rewrite parseCppFiles_filter.
    induction files as [|f files IH]; simpl; [reflexivity|].
    unfold isCpp at 1. destruct (endsWith (name f) ".cpp"); simpl; congruence.
  - intros pre post base text. apply Forall_forall. intros ext I.
    rewrite !parseCppFiles_filter, !filter_app. simpl.
    unfold isCpp at 2. simpl. now rewrite (not_cpp base ext I).
Qed.

(** C9: [extractFunctions] is total.  The match loop returns within its
    fuel; when [match] answers [null] the result is the empty list, and
    otherwise it is the list of the matches, each trimmed; every entry is
    a trimmed string. *)
Theorem extractFunctions_total (content : string) :
  (exists A R', matchLoop (matchFuel content) (mkRegExp functionRegex 0) content
                = Some (A, R'))
  /\ match fst (String_match content (mkRegExp functionRegex 0)) with
     | None => extractFunctions content = []
     | Some matches =>
         matches <> [] /\ extractFunctions content = map trim matches
     end
  /\ Forall (fun f => trim f = f) (extractFunctions content).
Proof.
  destruct (String_match_spec content (mkRegExp functionRegex 0))
    as (A & E & M).
  split; [eauto|]. split.
  - unfold extractFunctions, extractFunctions_on. rewrite M.
    destruct A; simpl; [reflexivity|]. split; [discriminate | reflexivity].
  - destruct (extractFunctions_spec content) as (A' & _ & F & ->).
    eapply Forall_impl; [|exact F]. intros f [_ H]. now apply trim_match.
Qed.

End AnalyzerClaims.

(* ------------------------------------------------------------------ *)
(** ** The file uploader *)

Module UploaderFacts.
Import JsString StringFacts Uploader.

Lemma toLowerCase_append (a b : string) :
  toLowerCase (a +++ b) = toLowerCase a +++ toLowerCase b.
Proof. induction a as [|c a IH]; simpl; congruence. Qed.

Lemma length_toLowerCase (s : string) :
  String.length (toLowerCase s) = String.length s.
Proof. induction s as [|c s IH]; simpl; congruence. Qed.

(** A name has one of the extensions when it is a base followed by a
    suffix that lower-cases to the extension: the test ignores case. *)
Lemma hasExtension_spec (exts : list string) (f : File) :
  hasExtension exts f = true
  <-> exists base suffix,
      name f = base +++ suffix /\ In (toLowerCase suffix) exts.
Proof.
  unfold hasExtension. rewrite existsb_exists. split.
  - intros (ext & I & E). apply endsWith_spec in E as [pre E].
    assert (L : String.length pre <= String.length (name f)).
    { apply (f_equal String.length) in E.
      rewrite length_toLowerCase, length_append in E. lia. }
    exists (substring 0 (String.length pre) (name f)),
           (drop (String.length pre) (name f)).
    split; [now apply take_drop|].
    rewrite (take_drop _ _ L), toLowerCase_append in E.
    apply append_inj_r in E; [now rewrite E|].
    apply (f_equal String.length) in E.
    rewrite !length_append, !length_toLowerCase in *.
    rewrite length_substring in E by (simpl; lia). lia.
  - intros (base & suffix & E & I).
    exists (toLowerCase suffix). split; [exact I|].
    rewrite E, toLowerCase_append. apply endsWith_append.
Qed.

Example upper_case_extension_accepted :
  hasExtension cppFileExtensions (mkFile "Vector.HPP" 120) = true
  /\ hasExtension cppFileExtensions (mkFile "notes.txt" 7) = false.
Proof. split; reflexivity. Qed.

(** C10: in the individual-files mode [addFiles] appends to the selection
    the input files that have a C++ extension, case ignored, in their
    order; when there is none, [onError] is called and the selection, as
    the rest of the state, is left as it was. *)
Theorem addFiles_appends_cpp_files (st : State) (files : list File) :
  uploadMode st = Files ->
  let validFiles := filter (hasExtension cppFileExtensions) files in
  selectedFiles (addFiles st files) = selectedFiles st ++ validFiles
  /\ (forall f, In f validFiles
                <-> In f files
                    /\ exists base suffix,
                      name f = base +++ suffix
                      /\ In (toLowerCase suffix) cppFileExtensions)
  /\ (validFiles = [] ->
      addFiles st files
      = onError st "Please select C++ files (.cpp, .hpp, .h, .cc, .cxx, .c++)")
  /\ (validFiles <> [] ->
      addFiles st files
      = mkState (selectedFiles st ++ validFiles) Files (githubUrl st)
                (errors st)).
Proof.
  intros M validFiles.
  assert (V : forall f, In f validFiles
                <-> In f files
                    /\ exists base suffix,
                      name f = base +++ suffix
                      /\ In (toLowerCase suffix) cppFileExtensions).
  { intros f. unfold validFiles. now rewrite filter_In, hasExtension_spec. }
  unfold addFiles. rewrite M. simpl isZip. cbv iota. fold validFiles.
  clearbody validFiles.
  split; [|split; [exact V|split]].
  - destruct validFiles; simpl; [now rewrite app_nil_r | reflexivity].
  - intros ->. reflexivity.
  - intros N. destruct validFiles; [congruence|]. simpl.
    unfold setSelectedFiles. now rewrite M.
Qed.

Lemma addFiles_appends_cpp_files_witness :
  uploadMode (mkState [mkFile "main.cpp" 10] Files "" []) = Files
  /\ selectedFiles
       (addFiles (mkState [mkFile "main.cpp" 10] Files "" [])
                 [mkFile "README.md" 3; mkFile "Util.H" 5; mkFile "util.CC" 8])
     = [mkFile "main.cpp" 10; mkFile "Util.H" 5; mkFile "util.CC" 8].
Proof.
  split; [reflexivity|].
  exact (proj1 (addFiles_appends_cpp_files
                  (mkState [mkFile "main.cpp" 10] Files "" [])
                  [mkFile "README.md" 3; mkFile "Util.H" 5; mkFile "util.CC" 8]
                  eq_refl)).
Defined.

End UploaderFacts.

(* ------------------------------------------------------------------ *)
(** ** Coverage Estimator *)

Module CoverageFacts.
Import Coverage.

Lemma ratio_div (c t : nat) :
  (ratio c (S t) == inject_Z (Z.of_nat c) / inject_Z (Z.of_nat (S t)))%Q.
Proof.
  unfold ratio. rewrite Qmake_Qdiv.
  now rewrite <- Znat.positive_nat_Z, Nat2Pos.id by discriminate.
Qed.

Lemma sum_app (a b : list nat) : sum (a ++ b) = sum a + sum b.
Proof. induction a as [|x a IH]; simpl; [reflexivity | rewrite IH; lia]. Qed.

Lemma coveredCount_le (tests : list GeneratedTest) (fs : FileSymbols) :
  coveredCount tests fs <= totalCount fs.
Proof. apply filter_length_le. Qed.

(** A file without symbols takes no part in the overall coverage. *)
Lemma overallCoverage_skip (tests : list GeneratedTest)
      (pre post : list FileSymbols) (F : string) :
  overallCoverage tests (pre ++ (F, []) :: post)
  = overallCoverage tests (pre ++ post).
Proof. unfold overallCoverage. now rewrite !filter_app. Qed.










End CoverageFacts.

(** *** Claims about the Coverage Estimator *)

Module CoverageClaims.
Import Coverage CoverageFacts.

Lemma sum_counted (f : FileSymbols -> nat) (files : list FileSymbols) :
  (forall fs, f fs <= totalCount fs) ->
  sum (map f (filter hasSymbols files)) = sum (map f files).
Proof.
  intros B. induction files as [|fs files IH]; simpl; [reflexivity|].
  unfold hasSymbols at 1. destruct (totalCount fs =? 0) eqn:Z; simpl.
  - apply Nat.eqb_eq in Z. specialize (B fs). lia.
  - now rewrite IH.
Qed.

(** C2: per-file coverage is covered over total, and 0 for a file without
    symbols; such a file is left out of the overall coverage, which is the
    covered symbols over the total symbols of the files; and the file
    [math.cpp] with symbols [add] and [subtract] and one test claiming [add]
    has coverage 1/2, as has the whole, with or without an empty file
    beside it. *)
Theorem coverage_ratios (tests : list GeneratedTest) :
  (forall F s syms,
      (fileCoverage tests (F, s :: syms)
       == inject_Z (Z.of_nat (coveredCount tests (F, s :: syms)))
          / inject_Z (Z.of_nat (totalCount (F, s :: syms))))%Q)
  /\ (forall F, fileCoverage tests (F, []) = 0%Q)
  /\ (forall pre post F,
         overallCoverage tests (pre ++ (F, []) :: post)
         = overallCoverage tests (pre ++ post))
  /\ (forall files,
         overallCoverage tests files
         = ratio (sum (map (coveredCount tests) files))
                 (sum (map totalCount files)))
  /\ estimate [("math.cpp", [fn "add" "(int, int)"; fn "subtract" "(int, int)"])]
              [testOf "math.cpp" ["add"]]
     = mkReport (1 # 2) [("math.cpp", 1 # 2)] [("add", 1%Q); ("subtract", 0%Q)]
  /\ overall_coverage
       (estimate [("math.cpp", [fn "add" "(int, int)";
                                fn "subtract" "(int, int)"]);
                  ("empty.cpp", [])]
                 [testOf "math.cpp" ["add"]])
     = (1 # 2)%Q.
Proof.
  split; [|split; [|split; [|split; [|split]]]].
  - intros F s syms. apply ratio_div.
  - reflexivity.
  - intros. apply overallCoverage_skip.
  - intros files. unfold overallCoverage.
    rewrite (sum_counted (coveredCount tests)) by apply coveredCount_le.
    now rewrite (sum_counted totalCount) by (intros; lia).
  - reflexivity.
  - reflexivity.
Qed.




End CoverageClaims.

(* ------------------------------------------------------------------ *)
(** ** Build Validator *)

Module BuildValidatorFacts.
Import StringFacts BuildValidator.

Lemma splitAt_append (c : ascii) (a b : string) :
  hasChar c a = false -> splitAt c (a +++ String c b) = Some (a, b).
Proof.
  induction a as [|d a IH]; simpl; intros H.
  - now rewrite Ascii.eqb_refl.
  - apply orb_false_iff in H as [D H]. now rewrite D, IH.
Qed.

Lemma splitAt_Some (c : ascii) (s a b : string) :
  splitAt c s = Some (a, b) -> s = a +++ String c b /\ hasChar c a = false.
Proof.
  revert a; induction s as [|d s IH]; intros a; simpl; [discriminate|].
  destruct (Ascii.eqb d c) eqn:D.
  - apply Ascii.eqb_eq in D; subst d. intros E; inversion E; subst. auto.
  - destruct (splitAt c s) as [[a' b']|]; [|discriminate].
    intros E; inversion E; subst.
    destruct (IH a' eq_refl) as [-> H]. simpl. now rewrite D.
Qed.

Lemma digits_no_colon (d : Decimal.uint) :
  hasChar ":" (NilEmpty.string_of_uint d) = false.
Proof. induction d; simpl; auto. Qed.

Lemma showNat_no_colon (n : nat) : hasChar ":" (showNat n) = false.
Proof.
  unfold showNat, NilZero.string_of_uint.
  destruct (Nat.to_uint n) eqn:E; try reflexivity;
    rewrite <- E; apply digits_no_colon.
Qed.

Lemma to_uint_nonnil (n : nat) : Nat.to_uint n <> Decimal.Nil.
Proof.
  intros E. pose proof (DecimalNat.Unsigned.of_to n) as R.
  rewrite E in R. simpl in R. subst n. discriminate.
Qed.

(** Printing a line number and reading it back. *)
Lemma parseNat_showNat (n : nat) : parseNat (showNat n) = Some n.
Proof.
  unfold parseNat, showNat.
  rewrite NilZero.usu by apply to_uint_nonnil. simpl.
  now rewrite DecimalNat.Unsigned.of_to.
Qed.

Lemma severityOfName_name (sev : Severity) :
  severityOfName (severityName sev) = Some sev
  /\ hasChar ":" (severityName sev) = false.
Proof. destruct sev; split; reflexivity. Qed.

Lemma severityOfName_Some (w : string) (sev : Severity) :
  severityOfName w = Some sev -> w = severityName sev.
Proof.
  unfold severityOfName.
  destruct (String.eqb_spec w "error"); [intros E; inversion E; now subst|].
  destruct (String.eqb_spec w "warning"); [intros E; inversion E; now subst|].
  destruct (String.eqb_spec w "info"); [intros E; inversion E; now subst|].
  discriminate.
Qed.

(** A line of the diagnostic shape parses to its fields. *)
Lemma parseLine_diagnostic (f : string) (n : nat) (sev : Severity)
      (msg : string) :
  f <> "" -> hasChar ":" f = false ->
  parseLine (diagnosticLine f n sev msg) = mkEntry sev msg (Some f) (Some n).
Proof.
  intros NE NC. unfold parseLine, diagnosticLine.
  change (":" +++ showNat n +++ ": " +++ severityName sev +++ ": " +++ msg)
    with (String ":" (showNat n +++ ": " +++ severityName sev +++ ": " +++ msg)).
  rewrite (splitAt_append ":" f _ NC).
  destruct f as [|c f]; [congruence|].
  change (": " +++ severityName sev +++ ": " +++ msg)
    with (String ":" (String " " (severityName sev +++ ": " +++ msg))).
  rewrite (splitAt_append ":" (showNat n) _ (showNat_no_colon n)).
  change (": " +++ msg) with (String ":" (String " " msg)).
  destruct (severityOfName_name sev) as [SN SC].
  rewrite (splitAt_append ":" (severityName sev) _ SC).
  now rewrite parseNat_showNat, SN.
Qed.

(** What the parser returns: the fields of a line of the shape, or the raw
    line as an [Info] entry. *)
Lemma parseLine_cases (l : string) :
  parseLine l = rawInfo l
  \/ exists f digits n sev msg,
      l = f +++ ":" +++ digits +++ ": " +++ severityName sev +++ ": " +++ msg
      /\ f <> "" /\ hasChar ":" f = false
      /\ parseNat digits = Some n
      /\ parseLine l = mkEntry sev msg (Some f) (Some n).
Proof.
  unfold parseLine.
  destruct (splitAt ":" l) as [[[|c f] r1]|] eqn:S1; auto.
  destruct (splitAt ":" r1) as [[digits [|[[] [] [] [] [] [] [] []] r2]]|] eqn:S2;
    auto.
  destruct (splitAt ":" r2) as [[w [|[[] [] [] [] [] [] [] []] msg]]|] eqn:S3;
    auto.
  destruct (parseNat digits) as [n|] eqn:PN; auto.
  destruct (severityOfName w) as [sev|] eqn:SV; auto.
  right. exists (String c f), digits, n, sev, msg.
  apply splitAt_Some in S1 as [-> H1].
  apply splitAt_Some in S2 as [-> _].
  apply splitAt_Some in S3 as [-> _].
  apply severityOfName_Some in SV as ->.
  repeat split; auto. discriminate.
Qed.

Lemma noErrors_spec (logs : list BuildLogEntry) :
  noErrors logs = true <-> forall e, In e logs -> severity e <> Error.
Proof.
  unfold noErrors. rewrite forallb_forall. split; intros H e I.
  - specialize (H e I). unfold isError in H.
    destruct (severity e); simpl in H; congruence.
  - specialize (H e I). unfold isError.
    destruct (severity e); simpl; congruence.
Qed.

End BuildValidatorFacts.

(** *** Claims about the Build Validator *)

Module BuildValidatorClaims.
Import StringFacts BuildValidator BuildValidatorFacts.

(** C5: [passed] holds exactly when the log has no [Error] entry and the
    toolchain exited with success; a line of the shape
    [file:line: severity: message] parses to an entry with these fields;
    any other line is kept whole as an [Info] entry; and the line of the
    scenario parses to its four fields, with [passed] false. *)
Theorem validate_passed_and_parse :
  (forall exitSuccess diagnostics,
      fst (validate (Ran exitSuccess diagnostics)) = true
      <-> (forall e, In e (snd (validate (Ran exitSuccess diagnostics))) ->
                     severity e <> Error)
          /\ exitSuccess = true)
  /\ (forall f n sev msg,
         f <> "" -> hasChar ":" f = false ->
         parseLine (diagnosticLine f n sev msg)
         = mkEntry sev msg (Some f) (Some n))
  /\ (forall l,
         parseLine l = mkEntry Info l None None
         \/ exists f digits n sev msg,
             l = f +++ ":" +++ digits +++ ": " +++ severityName sev
                   +++ ": " +++ msg
             /\ f <> "" /\ hasChar ":" f = false
             /\ parseNat digits = Some n
             /\ parseLine l = mkEntry sev msg (Some f) (Some n))
  /\ parseLine "math_test.cpp:12: error: undeclared identifier"
     = mkEntry Error "undeclared identifier" (Some "math_test.cpp") (Some 12)
  /\ (forall exitSuccess,
         validate (Ran exitSuccess
                       ["math_test.cpp:12: error: undeclared identifier"])
         = (false, [mkEntry Error "undeclared identifier"
                            (Some "math_test.cpp") (Some 12)])).
Proof.
  split; [|split; [|split; [|split]]].
  - intros ok lines. simpl. rewrite andb_true_iff. now rewrite noErrors_spec.
  - apply parseLine_diagnostic.
  - apply parseLine_cases.
  - reflexivity.
  - intros ok. reflexivity.
Qed.

Lemma validate_passed_and_parse_witness :
  parseLine (diagnosticLine "src/stack.cpp" 204 Warning "unused variable: n")
  = mkEntry Warning "unused variable: n" (Some "src/stack.cpp") (Some 204).
Proof.
  apply (proj1 (proj2 validate_passed_and_parse)); [discriminate | reflexivity].
Defined.

End BuildValidatorClaims.

(* ------------------------------------------------------------------ *)
(** ** Orchestrator *)

Module OrchestratorFacts.
Import Orchestrator.

(** Case analysis along the branches of a transition. *)
Ltac branches :=
  repeat match goal with
         | |- context [match ?x with _ => _ end] => destruct x eqn:?
         end.

Ltac positive :=
  repeat match goal with
         | H : (0 <? _) = true |- _ => apply Nat.ltb_lt in H
         | H : (0 <? _) = false |- _ => apply Nat.ltb_ge in H
         end.

Lemma step_terminal (p : Policy) (w : World) (r : Run) :
  terminal r = true -> step p w r = r.
Proof. unfold terminal, step. destruct (status r); congruence. Qed.

(** Every transition out of a state that is not terminal lowers the
    measure. *)
Lemma step_measure (p : Policy) (w : World) (r : Run) :
  terminal r = false -> measure (step p w r) < measure r.
Proof.
  unfold terminal, step, invokeModel, building, retry, measure.
  destruct r as [st sg bf rf mc ba lb]. simpl.
  destruct st; try discriminate; intros _; simpl; branches; positive;
    simpl in *; lia.
Qed.

(** The budgets never grow, and no transition draws on both. *)
Lemma step_budgets (p : Policy) (w : World) (r : Run) :
  buildFixLeft (step p w r) <= buildFixLeft r
  /\ refineLeft (step p w r) <= refineLeft r
  /\ (buildFixLeft (step p w r) = buildFixLeft r
      \/ refineLeft (step p w r) = refineLeft r).
Proof.
  unfold step, invokeModel, building, retry.
  destruct r as [st sg bf rf mc ba lb]. simpl.
  destruct st; simpl; branches; simpl; lia.
Qed.

Lemma run_progress (p : Policy) (w : World) (n : nat) :
  terminal (run p w n) = true
  \/ measure (run p w n) + n <= measure (start p).
Proof.
  induction n as [|n IH]; simpl; [right; lia|].
  destruct (terminal (run p w n)) eqn:T.
  - left. now rewrite step_terminal.
  - right. destruct IH as [IH|IH]; [discriminate|].
    pose proof (step_measure p w _ T). lia.
Qed.

Lemma measure_zero (r : Run) : measure r = 0 -> terminal r = true.
Proof.
  unfold measure, terminal. destruct (status r); simpl; auto; lia.
Qed.

Lemma run_stable (p : Policy) (w : World) (n m : nat) :
  terminal (run p w n) = true -> n <= m -> run p w m = run p w n.
Proof.
  intros T L. induction L as [|m L IH]; [reflexivity|].
  simpl. rewrite IH. now apply step_terminal.
Qed.

(** A run is over after at most three transitions for each attempt of the
    two budgets, and four more. *)
Lemma run_bounded (p : Policy) (w : World) :
  terminal (run p w (3 * (buildFixBudget p + refinementBudget p) + 4)) = true.
Proof.
  destruct (run_progress p w (3 * (buildFixBudget p + refinementBudget p) + 4))
    as [T|M]; [exact T|].
  apply measure_zero.
  assert (E : measure (start p)
              = 3 * (buildFixBudget p + refinementBudget p) + 4)
    by reflexivity.
  rewrite E in M. lia.
Qed.

Lemma step_succeededSoundly (p : Policy) (w : World) (r : Run) :
  succeededSoundly p r -> succeededSoundly p (step p w r).
Proof.
  unfold succeededSoundly, step, invokeModel, building, retry.
  destruct r as [st sg bf rf mc ba lb]. simpl.
  destruct st; simpl; auto; intros _; branches; simpl; try discriminate.
  intros _. destruct (buildResult w ba) as [passed cov]. simpl in *. subst.
  exists cov. split; [reflexivity|]. now apply Qle_bool_iff.
Qed.

Lemma reachable_succeededSoundly (p : Policy) (r : Run) :
  reachable p r -> succeededSoundly p r.
Proof.
  induction 1 as [|w r _ IH].
  - unfold succeededSoundly, start. simpl. discriminate.
  - now apply step_succeededSoundly.
Qed.

Lemma run_reachable (p : Policy) (w : World) (n : nat) :
  reachable p (run p w n).
Proof. induction n; simpl; now constructor. Qed.

End OrchestratorFacts.

(** *** Claims about the Orchestrator *)

Module OrchestratorClaims.
Import Orchestrator OrchestratorFacts.

(** The first four transitions of a run whose analyzer and first model
    invocation succeed: up to the outcome of the first Building pass. *)
Lemma run_to_first_build (p : Policy) (w : World) :
  analyzerOk w = true -> modelReply w 0 = Generated ->
  run p w 3
  = mkRun Building InitialGeneration (buildFixBudget p) (refinementBudget p)
          1 0 None
  /\ run p w 4 = building p w (run p w 3).
Proof.
  intros A M.
  assert (E : run p w 3
              = mkRun Building InitialGeneration (buildFixBudget p)
                      (refinementBudget p) 1 0 None).
  { simpl. unfold step at 3. simpl. unfold step at 2. simpl. rewrite A.
    unfold step. simpl. unfold invokeModel. simpl. now rewrite M. }
  split; [exact E|].
  change (run p w 4) with (step p w (run p w 3)). now rewrite E.
Qed.

(** C3: a reachable state is [Succeeded] only with a last build that
    passed and a coverage at or above the threshold; and with threshold
    0.8 and two refinement attempts, a first Building pass that is clean
    with coverage 0.5 leads from [Building] to [Refining], one attempt
    spent, and not to [Succeeded]. *)
Theorem succeeded_requires_pass_and_coverage (p : Policy) :
  (forall r, reachable p r -> status r = Succeeded ->
             exists cov, lastBuild r = Some (true, cov)
                         /\ (coverage_threshold p <= cov)%Q)
  /\ (forall w bf,
         analyzerOk w = true -> modelReply w 0 = Generated ->
         buildResult w 0 = (true, 1 # 2) ->
         status (run (mkPolicy (8 # 10) bf 2) w 3) = Building
         /\ run (mkPolicy (8 # 10) bf 2) w 4
            = mkRun Refining InitialGeneration bf 1 1 1 (Some (true, 1 # 2))
         /\ forall n, n <= 4 ->
                      status (run (mkPolicy (8 # 10) bf 2) w n) <> Succeeded).
Proof.
  split; [apply reachable_succeededSoundly|].
  intros w bf A M B.
  destruct (run_to_first_build (mkPolicy (8 # 10) bf 2) w A M) as [E3 E4].
  assert (R4 : run (mkPolicy (8 # 10) bf 2) w 4
               = mkRun Refining InitialGeneration bf 1 1 1 (Some (true, 1 # 2))).
  { rewrite E4, E3. unfold building. simpl. now rewrite B. }
  split; [now rewrite E3|]. split; [exact R4|].
  intros n L.
  destruct n as [|[|[|[|[|n]]]]]; try lia;
    [discriminate | discriminate | | now rewrite E3 | now rewrite R4].
  simpl. unfold step at 2. simpl. unfold step. simpl.
  destruct (analyzerOk w); discriminate.
Qed.

Lemma succeeded_requires_pass_and_coverage_witness :
  run (mkPolicy (8 # 10) 3 2)
      (mkWorld true (fun _ => Generated) (fun _ => (true, 1 # 2))) 4
  = mkRun Refining InitialGeneration 3 1 1 1 (Some (true, 1 # 2)).
Proof.
  apply (proj2 (succeeded_requires_pass_and_coverage (mkPolicy (8 # 10) 3 2))
               (mkWorld true (fun _ => Generated) (fun _ => (true, 1 # 2))) 3);
    reflexivity.
Defined.

(** C4: every run terminates, within a number of transitions fixed by
    the two budgets, and stays in its terminal state; the budgets are
    separate counters that never grow, and no transition draws on both;
    a failing build with no build-fix attempt left, and a passing build
    under the threshold with no refinement attempt left, end the run in
    [Failed]; and with no build-fix attempt at all, a first build that
    fails ends the run in [Failed] after one Building attempt. *)
Theorem run_terminates (p : Policy) (w : World) :
  (exists n,
      n <= 3 * (buildFixBudget p + refinementBudget p) + 4
      /\ terminal (run p w n) = true
      /\ forall m, n <= m -> run p w m = run p w n)
  /\ (forall r,
         buildFixLeft (step p w r) <= buildFixLeft r
         /\ refineLeft (step p w r) <= refineLeft r
         /\ (buildFixLeft (step p w r) = buildFixLeft r
             \/ refineLeft (step p w r) = refineLeft r))
  /\ (forall r,
         status r = Building ->
         fst (buildResult w (buildAttempts r)) = false ->
         buildFixLeft r = 0 ->
         status (step p w r) = Failed)
  /\ (forall r,
         status r = Building ->
         fst (buildResult w (buildAttempts r)) = true ->
         Qle_bool (coverage_threshold p) (snd (buildResult w (buildAttempts r)))
         = false ->
         refineLeft r = 0 ->
         status (step p w r) = Failed)
  /\ (buildFixBudget p = 0 ->
      analyzerOk w = true -> modelReply w 0 = Generated ->
      fst (buildResult w 0) = false ->
      status (run p w 3) = Building
      /\ buildAttempts (run p w 3) = 0
      /\ forall m, 4 <= m ->
                   status (run p w m) = Failed
                   /\ buildAttempts (run p w m) = 1).
Proof.
  split; [|split; [|split; [|split]]].
  - exists (3 * (buildFixBudget p + refinementBudget p) + 4).
    split; [lia|]. split; [apply run_bounded|].
    intros m L. apply run_stable; [apply run_bounded | exact L].
  - intros r. apply step_budgets.
  - intros r S B Z. unfold step. rewrite S. unfold building. rewrite B.
    simpl. now rewrite Z.
  - intros r S B C Z. unfold step. rewrite S. unfold building. rewrite B, C.
    simpl. now rewrite Z.
  - intros Z A M B.
    destruct (run_to_first_build p w A M) as [E3 E4].
    assert (R4 : status (run p w 4) = Failed
                 /\ buildAttempts (run p w 4) = 1).
    { rewrite E4, E3. unfold building. simpl. rewrite B, Z. now simpl. }
    split; [now rewrite E3|]. split; [now rewrite E3|].
    intros m L. rewrite (run_stable p w 4 m); [exact R4 | | exact L].
    unfold terminal. now rewrite (proj1 R4).
Qed.

Lemma run_terminates_witness :
  status (run (mkPolicy (8 # 10) 0 0)
              (mkWorld true (fun _ => Generated) (fun _ => (false, 0%Q))) 9)
  = Failed
  /\ buildAttempts
       (run (mkPolicy (8 # 10) 0 0)
            (mkWorld true (fun _ => Generated) (fun _ => (false, 0%Q))) 9)
     = 1.
Proof.
  apply (proj2 (proj2 (proj2 (proj2
           (run_terminates (mkPolicy (8 # 10) 0 0)
              (mkWorld true (fun _ => Generated) (fun _ => (false, 0%Q))))))));
    try reflexivity.
  repeat constructor.
Defined.

End OrchestratorClaims.

(* ------------------------------------------------------------------ *)
(** ** The anchored matcher against what its pattern can match *)

Module RegExpTestFacts.
Import JsString JsRegExp JsRegExpTest StringFacts RegExpFacts.

Section Quantifier.
Variables (cls : ascii -> bool) (greedy : bool).
Variables (k : nat -> string -> option nat).
Variable K : nat -> string -> string -> Prop.

Lemma aquantLang_nil (min : nat) (max : option nat) (pos : nat)
      (m rest : string) :
  min = 0 -> K pos m rest -> aquantLang cls K min max pos m rest.
Proof.
  intros -> H. exists "", m. simpl. rewrite Nat.add_0_r.
  repeat split; auto with arith.
Qed.

Lemma aquantLang_cons (c : ascii) (min : nat) (max : option nat) (pos : nat)
      (x rest : string) :
  canRepeat max && cls c = true ->
  aquantLang cls K (pred min) (option_map pred max) (S pos) x rest ->
  aquantLang cls K min max pos (String c x) rest.
Proof.
  intros C (r & m & -> & A & L & B & H).
  apply andb_true_iff in C as [R C].
  exists (String c r), m. simpl. rewrite C, A.
  rewrite Nat.add_succ_r. repeat split; auto; [lia|].
  intros b ->. destruct b as [|b]; [discriminate|].
  specialize (B b eq_refl). lia.
Qed.

Lemma arep_sound :
  asound k K ->
  forall min max, asound (arep cls greedy k min max)
                         (aquantLang cls K min max).
Proof.
  intros Hk min max pos s. revert min max pos.
  induction s as [|c s IH]; intros min max pos n E; simpl in E.
  - destruct min; [|discriminate].
    apply Hk in E as [L H]. split; [exact L|]. now apply aquantLang_nil.
  - assert (Step : forall j,
               (if canRepeat max && cls c then
                  option_map S (arep cls greedy k j (option_map pred max)
                                     (S pos) s)
                else None) = Some n ->
               pred min = j ->
               n <= String.length (String c s)
               /\ aquantLang cls K min max pos
                             (substring 0 n (String c s))
                             (drop n (String c s))).
    { intros j E' <-. destruct (canRepeat max && cls c) eqn:C; [|discriminate].
      apply option_map_S_Some in E' as (n' & -> & E').
      apply IH in E' as [L H]. simpl. split; [lia|].
      now apply aquantLang_cons. }
    destruct min as [|min].
    + destruct greedy.
      * destruct (if canRepeat max && cls c then
                    option_map S (arep cls true k 0 (option_map pred max)
                                       (S pos) s)
                  else None) as [e|] eqn:M.
        -- inversion E; subst e. now apply (Step 0).
        -- apply Hk in E as [L H]. split; [exact L|].
           now apply aquantLang_nil.
      * destruct (k pos (String c s)) as [e|] eqn:M.
        -- inversion E; subst e.
           apply Hk in M as [L H]. split; [exact L|].
           now apply aquantLang_nil.
        -- now apply (Step 0).
    + now apply (Step min).
Qed.

Lemma arep_complete :
  acomplete k K ->
  forall min max, acomplete (arep cls greedy k min max)
                            (aquantLang cls K min max).
Proof.
  intros Hk min max pos x rest (r & m & -> & A & L & B & H).
  rewrite append_assoc.
  revert min max pos A L B H;
    induction r as [|c r IH]; intros min max pos A L B H; simpl in *.
  - assert (min = 0) by lia; subst min. rewrite Nat.add_0_r in H.
    destruct (Hk pos m rest H) as [n E].
    destruct (m +++ rest) as [|c s] eqn:Es; simpl; [eauto|].
    destruct greedy.
    + destruct (if canRepeat max && cls c then _ else None); eauto.
    + rewrite E. eauto.
  - apply andb_true_iff in A as [C A].
    assert (R : canRepeat max = true).
    { destruct max as [[|b]|]; auto. specialize (B 0 eq_refl). lia. }
    rewrite R, C. simpl.
    assert (B' : forall b, option_map pred max = Some b -> String.length r <= b).
    { intros b E. destruct max as [b0|]; [|discriminate].
      inversion E; subst. specialize (B b0 eq_refl). lia. }
    rewrite Nat.add_succ_r in H.
    destruct min as [|min].
    + destruct (IH 0 (option_map pred max) (S pos) A) as [n E]; auto; [lia|].
      destruct greedy.
      * rewrite E. simpl. eauto.
      * destruct (k pos (String c (r +++ m +++ rest))); [eauto|].
        rewrite E. simpl. eauto.
    + destruct (IH min (option_map pred max) (S pos) A) as [n E]; auto; [lia|].
      rewrite E. simpl. eauto.
Qed.

End Quantifier.

Lemma amatch_quant_inv cls min max greedy p pos x rest :
  amatch (AQuant cls min max greedy :: p) pos x rest
  <-> aquantLang cls (amatch p) min max pos x rest.
Proof.
  split.
  - intros H. inversion H; subst. exists r, m. auto.
  - intros (r & m & -> & A & L & B & H). now constructor.
Qed.

(** What the anchored matcher consumes, the pattern can match there. *)
Theorem amatcher_sound (p : apattern) : asound (amatcher p) (amatch p).
Proof.
  induction p as [|[c|cls min max greedy| |] p IH]; simpl.
  - intros pos s n E. inversion E; subst. split; [lia|].
    rewrite drop_0. destruct s; constructor.
  - intros pos [|d s] n E; [discriminate|].
    destruct (Ascii.eqb c d) eqn:C; [|discriminate].
    apply Ascii.eqb_eq in C; subst d.
    apply option_map_S_Some in E as (n' & -> & E).
    apply IH in E as [L H]. simpl. split; [lia | now constructor].
  - intros pos s n E.
    apply (arep_sound cls greedy (amatcher p) (amatch p) IH) in E as [L H].
    split; [exact L|]. now apply amatch_quant_inv.
  - intros pos s n E. destruct (Nat.eqb_spec pos 0); [subst|discriminate].
    apply IH in E as [L H]. split; [exact L | now constructor].
  - intros pos [|c s] n E; [|discriminate].
    apply IH in E as [L H]. simpl in L.
    assert (n = 0) by lia; subst n. simpl in *.
    split; [lia | now constructor].
Qed.

(** The anchored matcher succeeds wherever its pattern can match. *)
Theorem amatcher_complete (p : apattern) : acomplete (amatcher p) (amatch p).
Proof.
  induction p as [|[c|cls min max greedy| |] p IH]; simpl.
  - intros pos m rest _. eauto.
  - intros pos m rest H. inversion H; subst. simpl.
    rewrite Ascii.eqb_refl.
    destruct (IH (S pos) m0 rest) as [n E]; auto. rewrite E. simpl. eauto.
  - intros pos m rest H. apply amatch_quant_inv in H.
    now apply (arep_complete cls greedy (amatcher p) (amatch p) IH).
  - intros pos m rest H. inversion H; subst. simpl. now apply IH.
  - intros pos m rest H. inversion H; subst. simpl.
    now apply (IH pos "" "").
Qed.

(** [asearch] succeeds exactly when the matcher does at some index. *)
Lemma asearch_spec (p : apattern) (s : string) :
  forall pos,
    asearch p pos s = true
    <-> exists j n, j <= String.length s
                    /\ amatcher p (pos + j) (drop j s) = Some n.
Proof.
  induction s as [|c s IH]; intros pos; simpl.
  - destruct (amatcher p pos "") as [n|] eqn:M.
    + split; [|reflexivity]. intros _. exists 0, n.
      now rewrite Nat.add_0_r.
    + split; [discriminate|]. intros (j & n & L & E).
      assert (j = 0) by lia; subst j.
      rewrite Nat.add_0_r in E. simpl in E. congruence.
  - destruct (amatcher p pos (String c s)) as [n|] eqn:M.
    + split; [|reflexivity]. intros _. exists 0, n.
      rewrite Nat.add_0_r. simpl. auto with arith.
    + rewrite IH. split.
      * intros (j & n & L & E). exists (S j), n.
        rewrite Nat.add_succ_r. simpl. split; [lia | exact E].
      * intros (j & n & L & E). destruct j as [|j].
        -- rewrite Nat.add_0_r in E. simpl in E. congruence.
        -- exists j, n. rewrite Nat.add_succ_r in E. simpl in E.
           split; [lia | exact E].
Qed.

(** With [^] in front, only index 0 can match. *)
Lemma test_begin (p : apattern) (s : string) :
  test (ABegin :: p) s = true <-> exists n, amatcher p 0 s = Some n.
Proof.
  unfold test. rewrite asearch_spec. split.
  - intros (j & n & L & E). simpl in E.
    destruct j as [|j]; [|discriminate]. now exists n.
  - intros [n E]. exists 0, n. simpl. auto with arith.
Qed.

Lemma amatch_lits (l : string) (p : apattern) :
  forall pos x rest,
    amatch (lits l p) pos x rest
    <-> exists m, x = l +++ m /\ amatch p (pos + String.length l) m rest.
Proof.
  induction l as [|c l IH]; intros pos x rest; simpl.
  - rewrite Nat.add_0_r. split; [intros H; now exists x|].
    now intros (m & -> & H).
  - split.
    + intros H. inversion H; subst.
      apply IH in H5 as (m' & -> & H'). exists m'.
      rewrite Nat.add_succ_r. auto.
    + intros (m & -> & H). constructor. apply IH. exists m.
      rewrite Nat.add_succ_r in H. auto.
Qed.

End RegExpTestFacts.

(* ------------------------------------------------------------------ *)
(** ** The GitHub URL check *)

Module GithubUrlFacts.
Import JsString JsRegExp JsRegExpTest GithubUrl StringFacts RegExpTestFacts.

Lemma optional_char (c : ascii) (r : string) :
  allChars (isChar c) r = true -> String.length r <= 1 ->
  r = "" \/ r = String c "".
Proof.
  destruct r as [|d [|e r]]; simpl; auto; [|lia].
  intros A _. right. rewrite andb_true_r in A.
  apply Ascii.eqb_eq in A. now subst.
Qed.

Lemma name_of_plus (r : string) :
  allChars isNameChar r = true -> 1 <= String.length r -> isName r.
Proof. intros A L. split; [|exact A]. destruct r; [simpl in L; lia | discriminate]. Qed.

(** The check accepts exactly the repository URLs. *)
Lemma validateGithubUrl_spec (url : string) :
  validateGithubUrl url = true <-> repositoryUrl url.
Proof.
  unfold validateGithubUrl, githubRegex. rewrite test_begin. split.
  - intros [n E]. apply amatcher_sound in E as [L H].
    pose proof (take_drop n url L) as U.
    apply amatch_lits in H as (m1 & E1 & H).
    apply amatch_quant_inv in H as (r1 & m2 & -> & A1 & _ & B1 & H).
    apply amatch_lits in H as (m3 & -> & H).
    apply amatch_quant_inv in H as (owner & m4 & -> & A2 & L2 & _ & H).
    inversion H as [|? ? ? m5 ? H5| | |]; subst; clear H.
    apply amatch_quant_inv in H5 as (repo & m6 & -> & A3 & L3 & _ & H).
    apply amatch_quant_inv in H as (r4 & m7 & -> & A4 & _ & B4 & H).
    inversion H; subst; clear H.
    match goal with
    | Hd : "" = drop n url |- _ => rewrite <- Hd, E1, append_nil_r in U
    end.
    clear E1.
    destruct (optional_char "s" r1 A1 (B1 1 eq_refl)) as [-> | ->];
      destruct (optional_char "/" r4 A4 (B4 1 eq_refl)) as [-> | ->];
      [exists "http", owner, repo, ""
      | exists "http", owner, repo, "/"
      | exists "https", owner, repo, ""
      | exists "https", owner, repo, "/"];
      (split; [rewrite U; simpl; rewrite ?append_nil_r; reflexivity|]);
      auto using name_of_plus.
  - intros (scheme & owner & repo & slash & -> & Sc & Sl & [No Ao] & [Nr Ar]).
    assert (H : amatch
                  (lits "http"
                     (aopt "s"
                        :: lits "://github.com/"
                             (aplus isNameChar
                                :: AChr "/"
                                :: aplus isNameChar :: aopt "/" :: [AEnd])))
                  0
                  (scheme +++ "://github.com/" +++ owner +++ "/"
                          +++ repo +++ slash)
                  "").
    { assert (Lo : 1 <= String.length owner) by (destruct owner; simpl; [congruence | lia]).
      assert (Lr : 1 <= String.length repo) by (destruct repo; simpl; [congruence | lia]).
      assert (Q : forall pos,
                 amatch (aopt "/" :: [AEnd]) pos slash "").
      { intros pos. rewrite <- (append_nil_r slash).
        apply am_quant.
        - destruct Sl as [-> | ->]; reflexivity.
        - lia.
        - intros b Eb. inversion Eb; subst.
          destruct Sl as [-> | ->]; simpl; lia.
        - repeat constructor. }
      assert (T : forall pos,
                 amatch (lits "://github.com/"
                           (aplus isNameChar
                              :: AChr "/"
                              :: aplus isNameChar :: aopt "/" :: [AEnd]))
                        pos
                        ("://github.com/" +++ owner +++ "/" +++ repo +++ slash)
                        "").
      { intros pos. apply amatch_lits. eexists. split; [reflexivity|].
        apply am_quant; auto; [discriminate|].
        constructor. apply am_quant; auto. discriminate. }
      apply amatch_lits.
      destruct Sc as [-> | ->].
      - exists ("://github.com/" +++ owner +++ "/" +++ repo +++ slash).
        split; [reflexivity|].
        apply (am_quant (isChar "s") 0 (Some 1) true _ _ ""); simpl; auto.
        intros b Eb; inversion Eb; lia.
      - exists ("s://github.com/" +++ owner +++ "/" +++ repo +++ slash).
        split; [reflexivity|].
        apply (am_quant (isChar "s") 0 (Some 1) true _ _ "s"); simpl; auto.
        intros b Eb; inversion Eb; lia. }
    destruct (amatcher_complete _ _ _ _ H) as [n E].
    rewrite append_nil_r in E. eauto.
Qed.

End GithubUrlFacts.

(* ------------------------------------------------------------------ *)
(** ** The handlers of the file uploader *)

Module UploaderHandlersFacts.
Import JsString StringFacts Uploader UploaderHandlers.

Lemma find_first {A : Type} (f : A -> bool) (pre post : list A) (x : A) :
  Forall (fun y => f y = false) pre -> f x = true ->
  find f (pre ++ x :: post) = Some x.
Proof.
  induction 1 as [|y pre Hy _ IH]; simpl; intros Hx.
  - now rewrite Hx.
  - rewrite Hy. now apply IH.
Qed.

Lemma find_none {A : Type} (f : A -> bool) (l : list A) :
  Forall (fun y => f y = false) l -> find f l = None.
Proof. induction 1 as [|y l Hy _ IH]; simpl; [|rewrite Hy]; auto. Qed.

(** In archive mode [addFiles] keeps the first archive among the files
    given and nothing else: it replaces the selection, whatever it was and
    however many archives are given; without an archive among the files it
    calls [onError] and leaves the selection alone. *)
Theorem addFiles_zip_first_archive (st : State) (files : list File) :
  uploadMode st = Zip ->
  (forall pre zipFile post,
      files = pre ++ zipFile :: post ->
      Forall (fun f => hasExtension zipFileExtensions f = false) pre ->
      hasExtension zipFileExtensions zipFile = true ->
      addFiles st files = mkState [zipFile] Zip (githubUrl st) (errors st))
  /\ (Forall (fun f => hasExtension zipFileExtensions f = false) files ->
      addFiles st files
      = onError st "Please select a valid archive file (.zip, .tar.gz, .tgz)").
Proof.
  intros M. unfold addFiles. rewrite M. simpl isZip. cbv iota. split.
  - intros pre z post -> P Z. rewrite (find_first _ pre post z P Z).
    unfold setSelectedFiles. now rewrite M.
  - intros N. now rewrite (find_none _ files N).
Qed.

Lemma addFiles_zip_first_archive_witness :
  addFiles (mkState [mkFile "old.zip" 9] Zip "" [])
           ([mkFile "notes.txt" 1] ++ mkFile "a.TAR.GZ" 5
              :: [mkFile "b.zip" 7])
  = mkState [mkFile "a.TAR.GZ" 5] Zip "" [].
Proof.
  apply (proj1 (addFiles_zip_first_archive
                  (mkState [mkFile "old.zip" 9] Zip "" [])
                  ([mkFile "notes.txt" 1] ++ mkFile "a.TAR.GZ" 5
                     :: [mkFile "b.zip" 7])
                  eq_refl)
               [mkFile "notes.txt" 1] (mkFile "a.TAR.GZ" 5)
               [mkFile "b.zip" 7] eq_refl).
  - repeat constructor.
  - reflexivity.
Defined.

(** The archive input looks at the first file only.  Without a file it
    does nothing, not even report.  When the first file is an archive the
    selection becomes that file alone, which in archive mode is what
    dropping the files does.  When the first file is not an archive it
    calls [onError] and changes nothing else, even if an archive follows,
    which dropping the same files in archive mode would have selected. *)
Theorem handleZipFileChange_first_only (st : State) :
  handleZipFileChange st None = st
  /\ handleZipFileChange st (Some []) = st
  /\ (forall file others,
         hasExtension zipFileExtensions file = true ->
         handleZipFileChange st (Some (file :: others))
         = mkState [file] (uploadMode st) (githubUrl st) (errors st)
         /\ (uploadMode st = Zip ->
             handleZipFileChange st (Some (file :: others))
             = addFiles st (file :: others)))
  /\ (forall file others,
         hasExtension zipFileExtensions file = false ->
         handleZipFileChange st (Some (file :: others))
         = onError st
             "Please select a valid archive file (.zip, .tar.gz, .tgz)"
         /\ selectedFiles (handleZipFileChange st (Some (file :: others)))
            = selectedFiles st
         /\ errors (handleZipFileChange st (Some (file :: others)))
            = errors st
              ++ ["Please select a valid archive file (.zip, .tar.gz, .tgz)"])
  /\ (forall file zipFile others,
         uploadMode st = Zip ->
         hasExtension zipFileExtensions file = false ->
         hasExtension zipFileExtensions zipFile = true ->
         handleZipFileChange st (Some (file :: zipFile :: others))
         = onError st
             "Please select a valid archive file (.zip, .tar.gz, .tgz)"
         /\ addFiles st (file :: zipFile :: others)
            = mkState [zipFile] Zip (githubUrl st) (errors st)).
Proof.
  split; [reflexivity|]. split; [reflexivity|].
  split; [|split].
  - intros file others Z. unfold handleZipFileChange. rewrite Z.
    split; [reflexivity|].
    intros M. unfold addFiles. rewrite M. cbn [isZip find]. now rewrite Z.
  - intros file others N. unfold handleZipFileChange. rewrite N.
    repeat split.
  - intros file z others M N Z. unfold addFiles, handleZipFileChange.
    rewrite M. cbn [isZip find]. rewrite N, Z.
    split; [reflexivity|]. unfold setSelectedFiles. now rewrite M.
Qed.

Lemma handleZipFileChange_first_only_witness :
  handleZipFileChange (mkState [mkFile "old.zip" 9] Zip "" [])
    (Some [mkFile "main.cpp" 3; mkFile "src.zip" 8])
  = onError (mkState [mkFile "old.zip" 9] Zip "" [])
            "Please select a valid archive file (.zip, .tar.gz, .tgz)"
  /\ addFiles (mkState [mkFile "old.zip" 9] Zip "" [])
              [mkFile "main.cpp" 3; mkFile "src.zip" 8]
     = mkState [mkFile "src.zip" 8] Zip "" [].
Proof.
  apply (proj2 (proj2 (proj2 (proj2
           (handleZipFileChange_first_only
              (mkState [mkFile "old.zip" 9] Zip "" []))))));
    reflexivity.
Defined.

Lemma filterFrom_keep_all {A : Type} (index : nat) (l : list A) :
  forall i, index < i ->
            filterFrom (fun _ j => negb (j =? index)) i l = l.
Proof.
  induction l as [|x l IH]; intros i L; simpl; [reflexivity|].
  destruct (Nat.eqb_spec i index); [lia|]. simpl. f_equal. apply IH. lia.
Qed.

Lemma filterFrom_remove {A : Type} (l : list A) :
  forall i k,
    filterFrom (fun _ j => negb (j =? i + k)) i l
    = firstn k l ++ skipn (S k) l.
Proof.
  induction l as [|x l IH]; intros i k; simpl.
  - now destruct k.
  - destruct k as [|k].
    + rewrite Nat.add_0_r, Nat.eqb_refl. simpl.
      apply filterFrom_keep_all. lia.
    + destruct (Nat.eqb_spec i (i + S k)); [lia|]. simpl. f_equal.
      replace (i + S k) with (S i + k) by lia. apply IH.
Qed.

(** [removeFile] takes out the entry at the index and nothing else, other
    entries keeping their order, equal files included; an index past the
    end changes nothing. *)
Theorem removeFile_at_index (st : State) (index : nat) :
  (index < List.length (selectedFiles st) ->
   selectedFiles (removeFile st index)
   = firstn index (selectedFiles st) ++ skipn (S index) (selectedFiles st)
   /\ S (List.length (selectedFiles (removeFile st index)))
      = List.length (selectedFiles st))
  /\ (List.length (selectedFiles st) <= index -> removeFile st index = st)
  /\ uploadMode (removeFile st index) = uploadMode st
  /\ githubUrl (removeFile st index) = githubUrl st
  /\ errors (removeFile st index) = errors st.
Proof.
  unfold removeFile, setSelectedFiles, filterIndexed.
  cbn [selectedFiles uploadMode githubUrl errors].
  pose proof (filterFrom_remove (selectedFiles st) 0 index) as R.
  cbn [Nat.add] in R. rewrite R.
  split; [|split; [|repeat split]].
  - intros L. split; [reflexivity|].
    rewrite length_app, length_firstn, length_skipn. lia.
  - intros L. rewrite firstn_all2, skipn_all2 by lia. rewrite app_nil_r.
    now destruct st.
Qed.

Lemma removeFile_at_index_witness :
  selectedFiles
    (removeFile (mkState [mkFile "a.cpp" 1; mkFile "b.h" 2; mkFile "a.cpp" 1]
                         Files "" []) 0)
  = firstn 0 [mkFile "a.cpp" 1; mkFile "b.h" 2; mkFile "a.cpp" 1]
    ++ skipn 1 [mkFile "a.cpp" 1; mkFile "b.h" 2; mkFile "a.cpp" 1].
Proof.
  apply (proj1 (removeFile_at_index
                  (mkState [mkFile "a.cpp" 1; mkFile "b.h" 2; mkFile "a.cpp" 1]
                           Files "" []) 0)).
  simpl. repeat constructor.
Defined.

Lemma addFiles_selected (st : State) (files : list File) :
  isZip (uploadMode st) = false ->
  selectedFiles (addFiles st files)
  = selectedFiles st ++ filter (hasExtension cppFileExtensions) files
  /\ uploadMode (addFiles st files) = uploadMode st
  /\ githubUrl (addFiles st files) = githubUrl st.
Proof.
  intros M. unfold addFiles. rewrite M.
  destruct (filter (hasExtension cppFileExtensions) files); simpl;
    [rewrite app_nil_r|]; auto.
Qed.

(** Outside archive mode, files added in two batches give the selection
    they give when added at once; what was selected stays in front, in its
    order; and a file added twice is selected twice. *)
Theorem addFiles_batches (st : State) (batch1 batch2 : list File) :
  isZip (uploadMode st) = false ->
  selectedFiles (addFiles (addFiles st batch1) batch2)
  = selectedFiles (addFiles st (batch1 ++ batch2))
  /\ firstn (List.length (selectedFiles st))
            (selectedFiles (addFiles st batch1))
     = selectedFiles st
  /\ selectedFiles (addFiles (addFiles st batch1) batch1)
     = selectedFiles st
       ++ filter (hasExtension cppFileExtensions) batch1
       ++ filter (hasExtension cppFileExtensions) batch1.
Proof.
  intros M.
  destruct (addFiles_selected st batch1 M) as (E1 & M1 & _).
  assert (M' : isZip (uploadMode (addFiles st batch1)) = false)
    by now rewrite M1.
  split; [|split].
  - rewrite (proj1 (addFiles_selected _ batch2 M')), E1.
    rewrite (proj1 (addFiles_selected st (batch1 ++ batch2) M)).
    now rewrite filter_app, app_assoc.
  - rewrite E1, firstn_app, firstn_all, Nat.sub_diag. simpl.
    now rewrite app_nil_r.
  - rewrite (proj1 (addFiles_selected _ batch1 M')), E1.
    now rewrite app_assoc.
Qed.

Lemma addFiles_batches_witness :
  selectedFiles
    (addFiles (addFiles (mkState [] Files "" []) [mkFile "a.cpp" 1])
              [mkFile "x.txt" 2; mkFile "b.hpp" 3])
  = selectedFiles
      (addFiles (mkState [] Files "" [])
                ([mkFile "a.cpp" 1] ++ [mkFile "x.txt" 2; mkFile "b.hpp" 3])).
Proof.
  apply (proj1 (addFiles_batches (mkState [] Files "" []) [mkFile "a.cpp" 1]
                                 [mkFile "x.txt" 2; mkFile "b.hpp" 3]
                                 eq_refl)).
Defined.

(** Outside archive mode [addFiles] selects and reports as the earlier
    component without modes does. *)
Theorem addFiles_as_without_modes (st : State) (files : list File) :
  isZip (uploadMode st) = false ->
  addFilesWithoutModes (selectedFiles st, errors st) files
  = (selectedFiles (addFiles st files), errors (addFiles st files)).
Proof.
  intros M. unfold addFilesWithoutModes, addFiles. rewrite M. simpl.
  now destruct (List.length (filter (hasExtension cppFileExtensions) files)
                =? 0).
Qed.

Lemma addFiles_as_without_modes_witness :
  addFilesWithoutModes ([mkFile "a.cpp" 1], []) [mkFile "b.txt" 2]
  = (selectedFiles (addFiles (mkState [mkFile "a.cpp" 1] Github "" [])
                             [mkFile "b.txt" 2]),
     errors (addFiles (mkState [mkFile "a.cpp" 1] Github "" [])
                      [mkFile "b.txt" 2])).
Proof.
  apply (addFiles_as_without_modes (mkState [mkFile "a.cpp" 1] Github "" [])
                                   [mkFile "b.txt" 2] eq_refl).
Defined.

End UploaderHandlersFacts.

(* ------------------------------------------------------------------ *)
(** ** Uploads: the URL check, [handleUpload] and the rendered controls *)

Module UploaderUIFacts.
Import JsString JsRegExp StringFacts Uploader GithubUrl UploaderHandlers.
Import GithubUrlFacts UploaderHandlersFacts.

Lemma nameChar_not_space (c : ascii) :
  isNameChar c = true -> isWhiteSpace c = false.
Proof. destruct c as [[] [] [] [] [] [] [] []]; vm_compute; congruence. Qed.

Lemma allChars_append (cls : ascii -> bool) (a b : string) :
  allChars cls (a +++ b) = allChars cls a && allChars cls b.
Proof.
  induction a as [|c a IH]; simpl; [reflexivity|].
  now rewrite IH, andb_assoc.
Qed.

Lemma allChars_weaken (cls cls' : ascii -> bool) (s : string) :
  (forall c, cls c = true -> cls' c = true) ->
  allChars cls s = true -> allChars cls' s = true.
Proof.
  intros W. induction s as [|c s IH]; simpl; [reflexivity|].
  intros A. apply andb_true_iff in A as [C A]. now rewrite (W c C), IH.
Qed.

Lemma repositoryUrl_no_space (url : string) :
  repositoryUrl url ->
  allChars (fun c => negb (isWhiteSpace c)) url = true /\ url <> "".
Proof.
  intros (scheme & owner & repo & slash & -> & Sc & Sl & [_ Ao] & [_ Ar]).
  assert (W : forall x, allChars isNameChar x = true ->
                        allChars (fun c => negb (isWhiteSpace c)) x = true).
  { intros x. apply allChars_weaken. intros c C.
    now rewrite (nameChar_not_space c C). }
  split.
  - rewrite !allChars_append, (W owner Ao), (W repo Ar).
    destruct Sc as [-> | ->], Sl as [-> | ->]; reflexivity.
  - destruct Sc as [-> | ->]; discriminate.
Qed.

Lemma trimEnd_no_space (s : string) :
  allChars (fun c => negb (isWhiteSpace c)) s = true -> trimEnd s = s.
Proof.
  induction s as [|c s IH]; simpl; [reflexivity|].
  intros A. apply andb_true_iff in A as [C A]. rewrite (IH A).
  apply negb_true_iff in C. rewrite C. now destruct s.
Qed.

Lemma trim_no_space (s : string) :
  allChars (fun c => negb (isWhiteSpace c)) s = true -> trim s = s.
Proof.
  intros A. unfold trim.
  assert (T : trimStart s = s).
  { destruct s as [|c s]; [reflexivity|]. simpl in *.
    apply andb_true_iff in A as [C _]. apply negb_true_iff in C.
    now rewrite C. }
  rewrite T. now apply trimEnd_no_space.
Qed.

(** The URL check accepts exactly the URLs
    [http(s)://github.com/owner/repo], a final slash allowed, with owner
    and repository not empty and over letters, digits, [_], [.] and [-];
    what it accepts holds no white space, so that trimming changes
    nothing. *)
Theorem validateGithubUrl_repository_urls (url : string) :
  (validateGithubUrl url = true <-> repositoryUrl url)
  /\ (validateGithubUrl url = true ->
      trim url = url /\ url <> ""
      /\ allChars (fun c => negb (isWhiteSpace c)) url = true).
Proof.
  split; [apply validateGithubUrl_spec|].
  intros V. apply validateGithubUrl_spec in V.
  destruct (repositoryUrl_no_space url V) as [A N].
  repeat split; auto. now apply trim_no_space.
Qed.

Lemma validateGithubUrl_repository_urls_witness :
  repositoryUrl "http://github.com/octo-cat/hello_world.git/".
Proof.
  apply (proj1 (proj1 (validateGithubUrl_repository_urls
                         "http://github.com/octo-cat/hello_world.git/"))).
  reflexivity.
Defined.

(** [handleUpload] calls the API service exactly when there is something
    to send: in GitHub mode when the URL is a repository URL, and then
    with that URL; in the other modes when the selection is not empty, and
    then with the selection, as an archive in archive mode.  Otherwise it
    reports one error and does nothing else. *)
Theorem handleUpload_requests (ui : UI) :
  (uploadMode (component ui) = Github ->
   (repositoryUrl (githubUrl (component ui)) ->
    handleUpload ui
    = await (setUploading ui true)
            (uploadFromGithub (githubUrl (component ui))))
   /\ (~ repositoryUrl (githubUrl (component ui)) ->
       exists msg, handleUpload ui = report ui msg))
  /\ (uploadMode (component ui) <> Github ->
      (selectedFiles (component ui) <> [] ->
       handleUpload ui
       = await (setUploading ui true)
               (if isZip (uploadMode (component ui))
                then uploadZipProject (selectedFiles (component ui))
                else uploadProject (selectedFiles (component ui))))
      /\ (selectedFiles (component ui) = [] ->
          exists msg, handleUpload ui = report ui msg)).
Proof.
  unfold handleUpload. split.
  - intros M. rewrite M. cbn [isGithub]. split.
    + intros V. destruct (repositoryUrl_no_space _ V) as [A N].
      rewrite (trim_no_space _ A).
      destruct (String.eqb_spec (githubUrl (component ui)) ""); [congruence|].
      apply validateGithubUrl_spec in V. now rewrite V.
    + intros NV.
      destruct (String.eqb (trim (githubUrl (component ui))) ""); [eauto|].
      destruct (validateGithubUrl (githubUrl (component ui))) eqn:V;
        [|simpl; eauto].
      apply validateGithubUrl_spec in V. contradiction.
  - intros M.
    assert (G : isGithub (uploadMode (component ui)) = false)
      by (destruct (uploadMode (component ui)) eqn:E; simpl; congruence).
    rewrite G. split.
    + intros N. destruct (selectedFiles (component ui)); [congruence|].
      reflexivity.
    + intros ->. simpl. eauto.
Qed.

Lemma handleUpload_requests_witness :
  handleUpload
    (mkUI (mkState [] Github "https://github.com/org/lib" []) false false [] [])
  = await (setUploading
             (mkUI (mkState [] Github "https://github.com/org/lib" [])
                   false false [] []) true)
          (uploadFromGithub "https://github.com/org/lib").
Proof.
  apply (proj1 (proj1 (handleUpload_requests
                         (mkUI (mkState [] Github "https://github.com/org/lib" [])
                               false false [] []))
                      eq_refl)).
  apply validateGithubUrl_spec. reflexivity.
Defined.

(** When nothing else is awaited, an upload that fails leaves the
    component as it was before the click but for the error reported, the
    message of the error or a fixed text; an upload that succeeds hands
    the response to [onUploadSuccess] once and clears what was sent, the
    URL or the selection.  Either way [uploading] is false again. *)
Theorem handleUpload_settles (ui : UI) (req : Request) :
  inflight ui = [] -> uploading ui = false ->
  inflight (handleUpload ui) = [req] ->
  (forall error,
      handleUploadSettled (handleUpload ui) 0 (Rejected error)
      = report ui (errorMessage error
                     (match req with
                      | uploadFromGithub _ => "Failed to fetch from GitHub"
                      | _ => "Upload failed"
                      end)))
  /\ (forall response,
         handleUploadSettled (handleUpload ui) 0 (Resolved response)
         = mkUI (match req with
                 | uploadFromGithub _ => setGithubUrl (component ui) ""
                 | _ => setSelectedFiles (component ui) (fun _ => [])
                 end)
                false (dragOver ui) [] (uploaded ui ++ [response])).
Proof.
  intros I U. unfold handleUpload.
  destruct ui as [st up dr fl ok]. simpl in I, U. subst fl up.
  cbn [component].
  destruct (isGithub (uploadMode st)) eqn:G.
  - destruct (String.eqb (trim (githubUrl st)) ""); [discriminate|].
    destruct (negb (validateGithubUrl (githubUrl st))); [discriminate|].
    simpl. intros E; inversion E; subst. split; reflexivity.
  - destruct (List.length (selectedFiles st) =? 0); [discriminate|].
    destruct (isZip (uploadMode st)); simpl; intros E; inversion E; subst;
      split; reflexivity.
Qed.

Lemma handleUpload_settles_witness :
  handleUploadSettled
    (handleUpload (mkUI (mkState [mkFile "a.cpp" 4] Files "" [])
                        false false [] []))
    0 (Rejected (ErrorObject "Network Error"))
  = report (mkUI (mkState [mkFile "a.cpp" 4] Files "" []) false false [] [])
           "Network Error".
Proof.
  apply (proj1 (handleUpload_settles
                  (mkUI (mkState [mkFile "a.cpp" 4] Files "" [])
                        false false [] [])
                  (uploadProject [mkFile "a.cpp" 4])
                  eq_refl eq_refl eq_refl)
               (ErrorObject "Network Error")).
Defined.

End UploaderUIFacts.

(* ------------------------------------------------------------------ *)
(** ** Invariants of the uploader under its rendered controls *)

Module UploaderInvariants.
Import JsString JsRegExp StringFacts Uploader GithubUrl UploaderHandlers.
Import GithubUrlFacts UploaderHandlersFacts UploaderUIFacts.

Lemma filterFrom_Forall {A : Type} (P : A -> Prop) (keep : A -> nat -> bool)
      (l : list A) :
  Forall P l -> forall i, Forall P (filterFrom keep i l).
Proof.
  induction 1 as [|x l Hx _ IH]; intros i; simpl; [constructor|].
  destruct (keep x i); [constructor|]; auto.
Qed.

Lemma filterFrom_length {A : Type} (keep : A -> nat -> bool) (l : list A) :
  forall i, List.length (filterFrom keep i l) <= List.length l.
Proof.
  induction l as [|x l IH]; intros i; simpl; [lia|].
  destruct (keep x i); simpl; specialize (IH (S i)); lia.
Qed.

Lemma filter_all {A : Type} (f : A -> bool) (l : list A) :
  Forall (fun x => f x = true) (filter f l).
Proof. apply Forall_forall. intros x I. now apply filter_In in I. Qed.

Lemma addFiles_disciplined (st : State) (files : list File) :
  uploadMode st <> Github -> disciplined st -> disciplined (addFiles st files).
Proof.
  intros M D. unfold disciplined in *. unfold addFiles.
  destruct (uploadMode st) eqn:E; [| congruence |]; simpl.
  - destruct (List.length (filter (hasExtension cppFileExtensions) files) =? 0);
      simpl; rewrite E; [exact D|].
    apply Forall_app. split; [exact D | apply filter_all].
  - destruct (find (hasExtension zipFileExtensions) files) as [z|] eqn:F;
      simpl; rewrite E; [|exact D].
    apply find_some in F as [_ F]. split; [simpl; lia|].
    now constructor.
Qed.

Lemma handleZipFileChange_disciplined (st : State)
      (files : option (list File)) :
  uploadMode st = Zip -> disciplined st ->
  disciplined (handleZipFileChange st files).
Proof.
  intros M D. unfold handleZipFileChange.
  destruct files as [[|file others]|]; auto.
  destruct (hasExtension zipFileExtensions file) eqn:Z;
    unfold disciplined in *; simpl; rewrite M in *; [|exact D].
  split; [simpl; lia | now constructor].
Qed.

Lemma removeFile_disciplined (st : State) (index : nat) :
  disciplined st -> disciplined (removeFile st index).
Proof.
  unfold disciplined, removeFile, setSelectedFiles, filterIndexed. simpl.
  destruct (uploadMode st).
  - intros D. now apply filterFrom_Forall.
  - intros ->. reflexivity.
  - intros [L D]. split; [|now apply filterFrom_Forall].
    pose proof (filterFrom_length
                  (fun (_ : File) i => negb (i =? index))
                  (selectedFiles st) 0). lia.
Qed.

Lemma handleModeSwitch_disciplined (st : State) (mode : UploadMode) :
  disciplined (handleModeSwitch st mode).
Proof. unfold disciplined. destruct mode; simpl; auto. Qed.

Lemma cleared_disciplined (st : State) :
  disciplined (setSelectedFiles st (fun _ => [])).
Proof. unfold disciplined. simpl. destruct (uploadMode st); simpl; auto. Qed.

(** Whatever the user does with the controls rendered and whenever the
    requests settle, the invariant holds. *)
Lemma fire_invariant (ui : UI) (e : Event) :
  invariant ui -> enabled ui e = true -> invariant (fire ui e).
Proof.
  intros (L & U & D & W) En.
  destruct e as [mode|value| | |files|files|files|index| |k o];
    simpl in En; unfold fire.
  - (* ClickTab *)
    repeat split; auto. apply handleModeSwitch_disciplined.
  - (* TypeUrl *)
    repeat split; auto.
  - repeat split; auto.
  - repeat split; auto.
  - (* Drop *)
    repeat split; auto. simpl. apply addFiles_disciplined; auto.
    destruct (uploadMode (component ui)); simpl in En; congruence.
  - (* ChooseFiles *)
    repeat split; auto. simpl.
    destruct files as [fs|]; simpl; auto.
    apply addFiles_disciplined; auto.
    destruct (uploadMode (component ui)); congruence.
  - (* ChooseArchive *)
    repeat split; auto. simpl.
    apply handleZipFileChange_disciplined; auto.
    destruct (uploadMode (component ui)); simpl in En; congruence.
  - (* ClickRemove *)
    repeat split; auto. simpl. now apply removeFile_disciplined.
  - (* ClickUpload *)
    assert (Idle : uploading ui = false /\ inflight ui = []).
    { destruct (isGithub (uploadMode (component ui)));
        [apply negb_true_iff, orb_false_iff in En as [Up _]
        |apply andb_true_iff in En as [_ Up];
         apply negb_true_iff in Up];
        (split; [exact Up|]);
        rewrite Up in U; destruct (inflight ui); [reflexivity|discriminate
                                                 |reflexivity|discriminate]. }
    destruct Idle as [Up Fl].
    unfold handleUpload.
    destruct (isGithub (uploadMode (component ui))) eqn:G.
    + destruct (String.eqb (trim (githubUrl (component ui))) "");
        [repeat split; auto|].
      destruct (validateGithubUrl (githubUrl (component ui))) eqn:V; simpl;
        [|repeat split; auto].
      unfold invariant. simpl. rewrite Fl. simpl. repeat split; auto.
      constructor; [|constructor]. simpl. now apply validateGithubUrl_spec.
    + apply andb_true_iff in En as [Sel _]. apply Nat.ltb_lt in Sel.
      destruct (Nat.eqb_spec (List.length (selectedFiles (component ui))) 0);
        [lia|].
      unfold invariant. simpl. rewrite Fl. simpl. repeat split; auto.
      constructor; [|constructor].
      unfold disciplined in D.
      destruct (uploadMode (component ui)); simpl in *; [| discriminate |].
      * split; [|exact D].
        destruct (selectedFiles (component ui)); [simpl in Sel; lia|discriminate].
      * destruct D as [L1 D].
        destruct (selectedFiles (component ui)) as [|f [|g fs]];
          simpl in *; try lia.
        exists f. split; [reflexivity|]. now inversion D.
  - (* Settle *)
    apply Nat.ltb_lt in En.
    destruct (inflight ui) as [|req [|req' fl]] eqn:Fl; simpl in *; try lia.
    assert (k = 0) by lia; subst k.
    unfold handleUploadSettled. rewrite Fl. simpl.
    destruct o as [response|error], req; simpl; repeat split; auto;
      apply cleared_disciplined.
Qed.

Lemma reachable_invariant (ui : UI) : reachable ui -> invariant ui.
Proof.
  induction 1 as [|ui e _ IH En].
  - repeat split; simpl; auto.
  - now apply fire_invariant.
Qed.

End UploaderInvariants.

(** *** What holds of every state the uploader can reach *)

Module UploaderReachable.
Import JsString Uploader GithubUrl UploaderHandlers UploaderInvariants.

(** A state to try the statements on: the files tab, two files dropped of
    which one is a C++ header, and the upload started. *)
Lemma sample_reachable :
  reachable
    (fire (fire (fire initial (ClickTab Files))
                (Drop [mkFile "README.md" 2; mkFile "Stack.HPP" 30]))
          ClickUpload).
Proof. repeat (apply reach_fire; [|reflexivity]). apply reach_initial. Qed.

(** At most one upload is awaited at any time: [uploading] is true exactly
    while a request is awaited, and the upload buttons are disabled until
    it settles. *)
Theorem one_upload_at_a_time (ui : UI) :
  reachable ui ->
  List.length (inflight ui) <= 1
  /\ (uploading ui = true <-> inflight ui <> [])
  /\ (inflight ui <> [] -> enabled ui ClickUpload = false).
Proof.
  intros R. destruct (reachable_invariant ui R) as (L & U & _ & _).
  assert (I : uploading ui = true <-> inflight ui <> []).
  { rewrite U. destruct (inflight ui); simpl; split; congruence. }
  split; [exact L|]. split; [exact I|].
  intros N. apply I in N. simpl. rewrite N.
  destruct (isGithub (uploadMode (component ui))); simpl; auto.
  apply andb_false_r.
Qed.

Lemma one_upload_at_a_time_witness :
  List.length
    (inflight
       (fire (fire (fire initial (ClickTab Files))
                   (Drop [mkFile "README.md" 2; mkFile "Stack.HPP" 30]))
             ClickUpload))
  <= 1.
Proof. apply (proj1 (one_upload_at_a_time _ sample_reachable)). Defined.

(** The selection fits the mode: empty in GitHub mode, C++ files only in
    files mode, at most one file and that an archive in archive mode. *)
Theorem selection_fits_mode (ui : UI) :
  reachable ui ->
  (uploadMode (component ui) = Github -> selectedFiles (component ui) = [])
  /\ (uploadMode (component ui) = Files ->
      Forall (fun f => hasExtension cppFileExtensions f = true)
             (selectedFiles (component ui)))
  /\ (uploadMode (component ui) = Zip ->
      List.length (selectedFiles (component ui)) <= 1
      /\ Forall (fun f => hasExtension zipFileExtensions f = true)
                (selectedFiles (component ui))).
Proof.
  intros R. destruct (reachable_invariant ui R) as (_ & _ & D & _).
  unfold disciplined in D.
  destruct (uploadMode (component ui));
    (split; [|split]); intros E; try discriminate; exact D.
Qed.

Lemma selection_fits_mode_witness :
  Forall (fun f => hasExtension cppFileExtensions f = true)
         (selectedFiles
            (component
               (fire (fire (fire initial (ClickTab Files))
                           (Drop [mkFile "README.md" 2; mkFile "Stack.HPP" 30]))
                     ClickUpload))).
Proof.
  apply (proj1 (proj2 (selection_fits_mode _ sample_reachable))).
  reflexivity.
Defined.

(** Every request awaited is well formed: a repository URL, a non-empty
    list of C++ files, or exactly one archive.  And in the files and
    archive modes a click on the upload button, when it is there and
    enabled, always sends a request and reports no error. *)
Theorem uploads_well_formed (ui : UI) :
  reachable ui ->
  Forall wellFormed (inflight ui)
  /\ (enabled ui ClickUpload = true ->
      uploadMode (component ui) <> Github ->
      errors (component (fire ui ClickUpload)) = errors (component ui)
      /\ exists req, inflight (fire ui ClickUpload) = [req]
                     /\ wellFormed req).
Proof.
  intros R. destruct (reachable_invariant ui R) as (L & U & D & W).
  split; [exact W|]. intros En M.
  pose proof (fire_invariant ui ClickUpload (conj L (conj U (conj D W))) En)
    as (_ & _ & _ & W').
  simpl in En. simpl fire in *. unfold handleUpload in *.
  destruct (isGithub (uploadMode (component ui))) eqn:G;
    [destruct (uploadMode (component ui)); simpl in G; congruence|].
  apply andb_true_iff in En as [Sel Up]. apply negb_true_iff in Up.
  apply Nat.ltb_lt in Sel.
  destruct (Nat.eqb_spec (List.length (selectedFiles (component ui))) 0);
    [lia|].
  rewrite Up in U. destruct (inflight ui) eqn:Fl; [|discriminate].
  simpl in *. rewrite Fl in *. simpl in *.
  split; [reflexivity|]. eexists. split; [reflexivity|]. now inversion W'.
Qed.

Lemma uploads_well_formed_witness :
  Forall wellFormed
         (inflight
            (fire (fire (fire initial (ClickTab Files))
                        (Drop [mkFile "README.md" 2; mkFile "Stack.HPP" 30]))
                  ClickUpload)).
Proof. apply (proj1 (uploads_well_formed _ sample_reachable)). Defined.

End UploaderReachable.

(* ------------------------------------------------------------------ *)
(** ** The results view and the project view *)

Module ViewsFacts.
Import JsString JsRegExp StringFacts Views.

Lemma has_In (s : StringSet) (x : string) : has s x = true <-> In x s.
Proof.
  unfold has. rewrite existsb_exists. split.
  - intros (y & I & E). apply String.eqb_eq in E. now subst.
  - intros I. exists x. split; [exact I | apply String.eqb_refl].
Qed.

Lemma has_app (a b : StringSet) (x : string) :
  has (a ++ b) x = has a x || has b x.
Proof. apply existsb_app. Qed.

Lemma has_delete (s : StringSet) (x g : string) :
  has (delete s x) g = has s g && negb (String.eqb g x).
Proof.
  unfold has, delete. induction s as [|y s IH]; simpl; [reflexivity|].
  destruct (String.eqb_spec x y) as [->|N]; simpl.
  - rewrite IH. destruct (String.eqb_spec g y); simpl; [|reflexivity].
    now rewrite andb_false_r.
  - rewrite IH. destruct (String.eqb_spec g y) as [->|]; simpl; [|reflexivity].
    destruct (String.eqb_spec y x); [congruence | reflexivity].
Qed.

Lemma has_toggle (prev : StringSet) (filename g : string) :
  has (toggleTestExpansion prev filename) g
  = if String.eqb g filename then negb (has prev filename) else has prev g.
Proof.
  unfold toggleTestExpansion, add.
  destruct (has prev filename) eqn:H.
  - rewrite has_delete.
    destruct (String.eqb_spec g filename) as [->|]; simpl;
      [apply andb_false_r | apply andb_true_r].
  - rewrite has_app. simpl. rewrite orb_false_r.
    destruct (String.eqb_spec g filename) as [->|]; simpl.
    + apply orb_true_r.
    + apply orb_false_r.
Qed.

(** [toggleTestExpansion] flips the expansion of the file named and of no
    other; toggling the same file twice shows what was shown before; the
    set keeps each name once; and its size changes by exactly one. *)
Theorem toggleTestExpansion_flips (prev : StringSet) (filename : string) :
  (forall g,
      has (toggleTestExpansion prev filename) g
      = if String.eqb g filename then negb (has prev filename)
        else has prev g)
  /\ (forall g,
         has (toggleTestExpansion (toggleTestExpansion prev filename) filename)
             g
         = has prev g)
  /\ (NoDup prev ->
      NoDup (toggleTestExpansion prev filename)
      /\ List.length (toggleTestExpansion prev filename)
         + (if has prev filename then 1 else 0)
         = List.length prev + (if has prev filename then 0 else 1)).
Proof.
  split; [intros g; apply has_toggle|]. split.
  - intros g. rewrite !has_toggle, String.eqb_refl.
    destruct (String.eqb_spec g filename) as [->|]; [|reflexivity].
    now rewrite negb_involutive.
  - intros N. unfold toggleTestExpansion, add.
    destruct (has prev filename) eqn:H.
    + split; [now apply NoDup_filter|].
      apply has_In in H. unfold delete.
      induction N as [|y s Ny N IH]; [destruct H|]. simpl.
      destruct (String.eqb_spec filename y) as [->|D]; simpl.
      * assert (F : filter (fun z => negb (String.eqb y z)) s = s).
        { apply forallb_filter_id. apply forallb_forall. intros z I.
          destruct (String.eqb_spec y z); [congruence | reflexivity]. }
        rewrite F. lia.
      * destruct H as [->|I]; [congruence|]. specialize (IH I). lia.
    + split; [|rewrite length_app; simpl; lia].
      apply NoDup_app; [exact N | repeat constructor; auto |].
      intros x I [<-|[]]. apply has_In in I. congruence.
Qed.

Lemma toggleTestExpansion_flips_witness :
  NoDup (toggleTestExpansion ["test_a.cpp"; "test_b.cpp"] "test_a.cpp").
Proof.
  apply (proj2 (proj2 (toggleTestExpansion_flips
                         ["test_a.cpp"; "test_b.cpp"] "test_a.cpp"))).
  repeat constructor; simpl; intuition discriminate.
Defined.

Lemma split_nonempty (sep : ascii) (s : string) : split sep s <> [].
Proof.
  destruct s as [|c s]; simpl; [discriminate|].
  destruct (Ascii.eqb c sep); [discriminate|].
  destruct (split sep s); discriminate.
Qed.

Lemma split_no_separator (sep : ascii) (s : string) :
  allChars (fun c => negb (Ascii.eqb c sep)) s = true -> split sep s = [s].
Proof.
  induction s as [|c s IH]; simpl; [reflexivity|].
  intros A. apply andb_true_iff in A as [C A].
  apply negb_true_iff in C. now rewrite C, (IH A).
Qed.

(** Splitting distributes over a separator. *)
Lemma split_append (sep : ascii) (a b : string) :
  split sep (a +++ String sep b) = split sep a ++ split sep b.
Proof.
  induction a as [|c a IH]; simpl.
  - now rewrite Ascii.eqb_refl.
  - rewrite IH. destruct (Ascii.eqb c sep); [reflexivity|].
    pose proof (split_nonempty sep a) as N.
    destruct (split sep a); [congruence | reflexivity].
Qed.

Lemma pop_last (l : list string) (x : string) : pop (l ++ [x]) = Some x.
Proof. unfold pop. now rewrite rev_app_distr. Qed.

(** The name shown for a file is what follows its last slash, the whole
    path when it has none, and the empty name when the path ends with a
    slash; it is never [undefined]. *)
Theorem shownName_after_last_slash :
  (forall dir base,
      allChars (fun c => negb (Ascii.eqb c "/")) base = true ->
      shownName (dir +++ "/" +++ base) = Some base)
  /\ (forall base,
         allChars (fun c => negb (Ascii.eqb c "/")) base = true ->
         shownName base = Some base)
  /\ (forall file, shownName file <> None).
Proof.
  unfold shownName. split; [|split].
  - intros dir base N.
    change ("/" +++ base) with (String "/" base).
    now rewrite split_append, (split_no_separator _ _ N), pop_last.
  - intros base N. now rewrite (split_no_separator _ _ N).
  - intros file. pose proof (split_nonempty "/" file) as N.
    destruct (split "/" file) as [|p l] using rev_ind; [congruence|].
    rewrite pop_last. discriminate.
Qed.

Lemma shownName_after_last_slash_witness :
  shownName ("src/core" +++ "/" +++ "stack.cpp") = Some "stack.cpp".
Proof.
  apply (proj1 shownName_after_last_slash "src/core" "stack.cpp").
  reflexivity.
Defined.

End ViewsFacts.

(* ------------------------------------------------------------------ *)
(** ** More about the C++ parser *)

Module CppParserMore.
Import JsString JsRegExp CppParser CppParserSpec.
Import StringFacts RegExpFacts MatchFacts CppParserFacts.

Lemma plus_word (r : string) :
  allChars isWordChar r = true -> 1 <= String.length r -> isWord r.
Proof.
  intros A L. split; [|exact A]. destruct r; [simpl in L; lia | discriminate].
Qed.

(** The language of [functionRegex], spelled out. *)
Lemma lang_functionHead (m : string) : lang functionRegex m -> functionHead m.
Proof.
  unfold functionRegex, plus, star, starLazy. intros H.
  apply lang_rep_inv in H as (ret & m1 & -> & Aret & Lret & H).
  apply lang_rep_inv in H as (ws1 & m2 & -> & Aws1 & Lws1 & H).
  apply lang_rep_inv in H as (stars & m3 & -> & Astars & _ & H).
  apply lang_rep_inv in H as (fname & m4 & -> & Afname & Lfname & H).
  apply lang_rep_inv in H as (ws2 & m5 & -> & Aws2 & _ & H).
  inversion H as [|? ? m6 H6|]; subst; clear H.
  apply lang_rep_inv in H6 as (args & m7 & -> & Aargs & _ & H).
  inversion H as [|? ? m8 H8|]; subst; clear H.
  apply lang_rep_inv in H8 as (ws3 & m9 & -> & Aws3 & _ & H).
  inversion H as [|? ? m10 H10|]; subst; clear H.
  inversion H10; subst.
  exists ret, ws1, stars, fname, ws2, args, ws3.
  repeat split; auto using plus_word;
    try (destruct ws1; [simpl in Lws1; lia | discriminate]);
    try (destruct ret; [simpl in Lret; lia | discriminate]);
    try (destruct fname; [simpl in Lfname; lia | discriminate]).
Qed.

Lemma countChar_append (c : ascii) (a b : string) :
  countChar c (a +++ b) = countChar c a + countChar c b.
Proof. induction a as [|d a IH]; simpl; [reflexivity | rewrite IH; lia]. Qed.

Lemma functionHead_punctuation (m : string) (c : ascii) :
  functionHead m -> In c ["("; ")"; "{"]%char -> 1 <= countChar c m.
Proof.
  intros (ret & ws1 & stars & fname & ws2 & args & ws3 & -> & _) I.
  rewrite !countChar_append. simpl in I.
  destruct I as [<-|[<-|[<-|[]]]]; simpl; lia.
Qed.

Lemma occursIn_countChar (c : ascii) (m s : string) :
  occursIn m s -> countChar c m <= countChar c s.
Proof. intros (pre & post & ->). rewrite !countChar_append. lia. Qed.

(** Every entry [extractFunctions] returns is a function head: two words
    apart by white space, with stars allowed before the second, then a
    parenthesised text that stays on one line, then an opening brace.  A
    text that lacks a parenthesis or an opening brace gives no entry, so
    a file of prototypes alone gives none. *)
Theorem extracted_are_function_heads (content : string) :
  Forall functionHead (extractFunctions content)
  /\ (forall c, In c ["("; ")"; "{"]%char -> countChar c content = 0 ->
                extractFunctions content = []).
Proof.
  destruct (extractFunctions_spec content) as (A & _ & F & ->).
  assert (H : Forall (fun m => occursIn m content /\ functionHead m) A).
  { eapply Forall_impl; [|exact F]. intros m [O L].
    split; [exact O | now apply lang_functionHead]. }
  split.
  - eapply Forall_impl; [|exact H]. now intros m [_ Hm].
  - intros c I Z. destruct A as [|m A]; [reflexivity|].
    inversion H as [|? ? [O Hm] _]; subst.
    pose proof (functionHead_punctuation m c Hm I).
    pose proof (occursIn_countChar c m content O). lia.
Qed.

Lemma extracted_are_function_heads_witness :
  extractFunctions "int add(int a, int b);
double scale(double x);" = [].
Proof.
  apply (proj2 (extracted_are_function_heads "int add(int a, int b);
double scale(double x);") "{"%char).
  - simpl. auto.
  - reflexivity.
Defined.

Lemma inOrder_later (A : list string) (s : string) (c : ascii) :
  inOrder A s -> inOrder A (String c s).
Proof.
  intros H. inversion H as [|gap m ms rest Hr]; subst; [constructor|].
  change (String c (gap +++ m +++ rest)) with (String c gap +++ m +++ rest).
  now constructor.
Qed.

Lemma inOrder_drop (A : list string) (s : string) (j : nat) :
  inOrder A (drop (S j) s) -> inOrder A (drop j s).
Proof.
  replace (S j) with (j + 1) by lia. rewrite <- drop_drop.
  destruct (drop j s) as [|c t]; simpl; [auto|].
  rewrite ?drop_0. apply inOrder_later.
Qed.

(** The strings the match loop collects lie one after the other in the
    text from [lastIndex] on. *)
Lemma matchLoop_inOrder (str : string) (fuel : nat) :
  forall R A R',
    matchLoop fuel R str = Some (A, R') ->
    inOrder A (drop (lastIndex R) str).
Proof.
  induction fuel as [|fuel IH]; intros R A R'; simpl; [discriminate|].
  destruct (RegExpBuiltinExec R str) as [[m|] R1] eqn:X.
  - apply exec_Some in X as (n & L1 & L2 & Em & _ & ->).
    set (R2 := match matched m with
               | "" => _
               | String _ _ => _
               end).
    destruct (matchLoop fuel R2 str) as [[A2 Rend]|] eqn:ML; [|discriminate].
    intros E; inversion E; subst; clear E.
    apply IH in ML.
    assert (T : inOrder A2 (drop (index m + n) str)).
    { subst R2. destruct (matched m); simpl in ML; [|exact ML].
      apply inOrder_drop. now rewrite Nat.add_1_r in ML. }
    pose proof (substring_occurs (index m - lastIndex R) n
                  (drop (lastIndex R) str)) as O.
    rewrite length_drop in O.
    rewrite (substring_drop (index m - lastIndex R) n) in O.
    rewrite !drop_drop in O.
    replace (lastIndex R + (index m - lastIndex R)) with (index m) in O by lia.
    replace (lastIndex R + (index m - lastIndex R + n)) with (index m + n)
      in O by lia.
    rewrite Em, (substring_drop (index m) n str).
    rewrite O by lia. now constructor.
  - intros E; inversion E; subst. constructor.
Qed.

Lemma inOrder_count (c : ascii) (A : list string) (s : string) :
  inOrder A s -> Forall (fun m => 1 <= countChar c m) A ->
  List.length A <= countChar c s.
Proof.
  induction 1 as [|gap m ms rest _ IH]; intros F; simpl; [lia|].
  inversion F; subst. rewrite !countChar_append.
  specialize (IH H2). lia.
Qed.

(** The entries [extractFunctions] returns lie in the text one after the
    other, in the order returned and without overlap; there are at most
    as many as the text has opening braces. *)
Theorem extracted_in_order (content : string) :
  inOrder (extractFunctions content) content
  /\ List.length (extractFunctions content) <= countChar "{" content.
Proof.
  destruct (extractFunctions_spec content) as (A & E & F & ->).
  assert (O : inOrder A content).
  { apply matchLoop_inOrder in E. simpl in E. now rewrite ?drop_0 in E. }
  split; [exact O|].
  apply inOrder_count; [exact O|].
  eapply Forall_impl; [|exact F]. intros m [_ L].
  apply functionHead_punctuation; [now apply lang_functionHead|].
  simpl. auto.
Qed.

(** [parseCppFiles] works file by file: what it returns for a list is
    what it returns for its parts, one after the other; it returns no
    more entries than files; and every entry is named [.cpp] and holds
    function heads. *)
Theorem parseCppFiles_file_by_file :
  (forall files1 files2,
      parseCppFiles (files1 ++ files2)
      = parseCppFiles files1 ++ parseCppFiles files2)
  /\ (forall files,
         List.length (parseCppFiles files) <= List.length files
         /\ Forall (fun p => endsWith (fileName p) ".cpp" = true
                             /\ Forall functionHead (functions p))
                   (parseCppFiles files)).
Proof.
  split.
  - intros a b. now rewrite !parseCppFiles_filter, filter_app, map_app.
  - intros files. rewrite parseCppFiles_filter. split.
    + rewrite length_map. apply filter_length_le.
    + apply Forall_forall. intros p I. apply in_map_iff in I as (f & <- & I).
      apply filter_In in I as [_ C]. split; [exact C|].
      destruct (extractFunctions_spec (content f)) as (A & _ & F & E).
      simpl. rewrite E. eapply Forall_impl; [|exact F].
      intros m [_ L]. now apply lang_functionHead.
Qed.

(** The uploader accepts every name the parser analyses, and more: a name
    with an extension in capitals, or with one of the other C++
    extensions, passes the uploader, and the parser returns no entry for
    it. *)
Theorem uploader_accepts_more_than_parser :
  (forall n sz,
      endsWith n ".cpp" = true ->
      Uploader.hasExtension Uploader.cppFileExtensions (Uploader.mkFile n sz)
      = true)
  /\ (forall base text sz,
         Forall (fun ext =>
                   Uploader.hasExtension Uploader.cppFileExtensions
                                         (Uploader.mkFile (base +++ ext) sz)
                   = true
                   /\ parseCppFiles [mkFile (base +++ ext) text] = [])
                [".CPP"; ".Cpp"; ".hpp"; ".h"; ".cc"; ".cxx"; ".c++"]).
Proof.
  split.
  - intros n sz E. apply endsWith_spec in E as [pre ->].
    apply UploaderFacts.hasExtension_spec. exists pre, ".cpp".
    split; [reflexivity | simpl; auto].
  - intros base text sz. apply Forall_forall. intros ext I. split.
    + apply UploaderFacts.hasExtension_spec. exists base, ext.
      split; [reflexivity|].
      simpl in I.
      repeat (destruct I as [<-|I]; [simpl; tauto|]). destruct I.
    + rewrite parseCppFiles_filter. simpl. unfold isCpp. simpl.
      assert (N : endsWith (base +++ ext) ".cpp" = false).
      { simpl in I.
        destruct I as [<-|[<-|[<-|[<-|[<-|[<-|[<-|[]]]]]]]];
          try (apply not_cpp; simpl; tauto);
          try (apply (endsWith_exclusive _ ".CPP");
               [reflexivity | discriminate | apply endsWith_append]);
          try (apply (endsWith_exclusive _ ".Cpp");
               [reflexivity | discriminate | apply endsWith_append]).
        apply (endsWith_exclusive _ ".c++");
          [reflexivity | discriminate | apply endsWith_append]. }
      now rewrite N.
Qed.

Lemma uploader_accepts_more_than_parser_witness :
  Uploader.hasExtension Uploader.cppFileExtensions
                        (Uploader.mkFile "src/main.cpp" 12)
  = true.
Proof.
  apply (proj1 uploader_accepts_more_than_parser "src/main.cpp" 12).
  reflexivity.
Defined.

End CppParserMore.
